(** * OCSF importer of datacontract-cli: a shallow embedding

    Source: [src/datacontract/imports/ocsf_importer.py].

    The importer turns an OCSF schema document (sections [types], [objects]
    and [classes]) into the models and definitions of a data contract.  The
    Python dictionaries that play the role of records (attribute specs, type
    descriptors, keyword arguments of [Field]) are records of optional
    entries: [None] stands for a key that is missing or that holds Python's
    [None], which is all that [dict.get] lets the code see.  Where the code
    reads a key by subscript or with a default (the sections of the
    document, [spec["attributes"]], [spec.get("name", name)],
    [spec.get("type", "table")]), the entry is an [Entry], which keeps a
    missing key and [null] apart.  The two memo tables of [OcsfToContract]
    and the log are threaded as explicit state. *)

From Stdlib Require Import ZArith Ascii String List Lia.
From stdpp Require Import base option list gmap strings fin_maps.

Open Scope string_scope.
Open Scope Z_scope.

(** ** Exceptions and the outcome of a call *)

(** The exceptions the importer can raise.  [KeyError] carries the key that
    was looked up; the key [None] is the sentinel of the memo tables. *)
Inductive exn : Type :=
| KeyError (key : option string)
| TypeError
| AttributeError
| IndexError
| DeprecatedField.

(** A call returns a value, raises, or exhausts the recursion budget of the
    model (Python: unbounded recursion along a cyclic [extends] chain). *)
Inductive outcome (A : Type) : Type :=
| Ok (a : A)
| Raise (e : exn)
| OutOfFuel.
Arguments Ok {A} a.
Arguments Raise {A} e.
Arguments OutOfFuel {A}.

Definition obind {A B : Type} (o : outcome A) (k : A -> outcome B) : outcome B :=
  match o with
  | Ok a => k a
  | Raise e => Raise e
  | OutOfFuel => OutOfFuel
  end.

(** ** Strings: the two regular expressions of [clean_html] *)

Definition lt_char : ascii := "<"%char.
Definition gt_char : ascii := ">"%char.
Definition slash_char : ascii := "/"%char.

(** Position of the first [>] of [s], if there is one. *)
Fixpoint index_gt (s : string) : option nat :=
  match s with
  | EmptyString => None
  | String c r => if Ascii.eqb c gt_char then Some 0%nat else S <$> index_gt r
  end.

(** [html_code.sub("`", html)] with [html_code = re.compile(r"</?code>")]:
    every occurrence of [<code>] or [</code>], scanning left to right, is
    replaced by a backquote.  [skip] counts the characters of a match that
    are still to be dropped. *)
Fixpoint sub_code_from (skip : nat) (s : string) : string :=
  match s with
  | EmptyString => EmptyString
  | String c r =>
      match skip with
      | S k => sub_code_from k r
      | O =>
          if String.prefix "<code>" s then String "`"%char (sub_code_from 5 r)
          else if String.prefix "</code>" s then String "`"%char (sub_code_from 6 r)
          else String c (sub_code_from 0 r)
      end
  end.

(** [html_all.sub("", html)] with [html_all = re.compile(r"<[^>]+>")]: a
    match starts at a [<] that is followed by at least one character other
    than [>] and, later, by a [>]; it ends at the first [>]. *)
Fixpoint strip_tags_from (skip : nat) (s : string) : string :=
  match s with
  | EmptyString => EmptyString
  | String c r =>
      match skip with
      | S k => strip_tags_from k r
      | O =>
          if Ascii.eqb c lt_char then
            match index_gt r with
            | Some (S k) => strip_tags_from (S (S k)) r
            | _ => String c (strip_tags_from 0 r)
            end
          else String c (strip_tags_from 0 r)
      end
  end.

(** [clean_html]: [re.sub] on [None] raises [TypeError]. *)
Definition clean_html (html : option string) : outcome string :=
  match html with
  | None => Raise TypeError
  | Some h => Ok (strip_tags_from 0 (sub_code_from 0 h))
  end.

(** [ref.split("/")[-1]]: what follows the last [/] of the string. *)
Fixpoint last_segment_from (cur : string) (s : string) : string :=
  match s with
  | EmptyString => cur
  | String c r =>
      if Ascii.eqb c slash_char then last_segment_from EmptyString r
      else last_segment_from (cur +:+ String c EmptyString) r
  end.

Definition last_segment (s : string) : string := last_segment_from EmptyString s.

(** [c.replace("-", "_")] *)
Fixpoint replace_hyphens (s : string) : string :=
  match s with
  | EmptyString => EmptyString
  | String c r =>
      String (if Ascii.eqb c "-"%char then "_"%char else c) (replace_hyphens r)
  end.

(** Truth value of a Python object, for the kinds of value the code tests. *)
Definition truthy_str (o : option string) : bool :=
  match o with
  | Some s => negb (String.eqb s "")
  | None => false
  end.

Definition truthy_int (o : option Z) : bool :=
  match o with
  | Some z => negb (Z.eqb z 0)
  | None => false
  end.

Definition truthy_bool (o : option bool) : bool :=
  match o with
  | Some b => b
  | None => false
  end.

Definition truthy_list {A : Type} (o : option (list A)) : bool :=
  match o with
  | Some (_ :: _) => true
  | _ => false
  end.

(** ** Ordered dictionaries with string keys

    [fields], [attributes], [classes] and [models] are dictionaries that
    the code iterates over, so their order is kept. *)

Definition dict (V : Type) : Type := list (string * V).

Fixpoint dict_get {V : Type} (k : string) (d : dict V) : option V :=
  match d with
  | [] => None
  | (k', v) :: r => if String.eqb k k' then Some v else dict_get k r
  end.

(** [d[k] = v]: an existing key keeps its position. *)
Fixpoint dict_set {V : Type} (k : string) (v : V) (d : dict V) : dict V :=
  match d with
  | [] => [(k, v)]
  | (k', v') :: r =>
      if String.eqb k k' then (k, v) :: r else (k', v') :: dict_set k v r
  end.

Definition dict_keys {V : Type} (d : dict V) : list string := map fst d.

(** ** The OCSF document *)

(** An entry of a JSON object that the code reads by subscript or with a
    default, where a missing key and a key that holds [null] differ. *)
Inductive Entry (A : Type) : Type :=
| Missing
| Null
| Value (a : A).
Arguments Missing {A}.
Arguments Null {A}.
Arguments Value {A} a.

(** [d.get(key, default)]: the default stands in for a missing key only. *)
Definition get_default {A : Type} (e : Entry A) (default : A) : option A :=
  match e with
  | Missing => Some default
  | Null => None
  | Value a => Some a
  end.

(** A scalar type spec of the [types] section. *)
Record TypeSpec : Type := mkTypeSpec {
  ts_type : option string;
  ts_description : option string;
  ts_min_len : option Z;
  ts_max_len : option Z;
  ts_regex : option string;
  ts_range : option (list (option Z));
  ts_observable : option Z }.

(** An attribute spec. *)
Record AttrSpec : Type := mkAttrSpec {
  a_caption : option string;
  a_description : option string;
  a_deprecated : option bool;
  a_group : option string;
  a_profile : option string;
  a_observable : option Z;
  a_object_type : option string;
  a_type : option string;
  a_is_array : option bool;
  a_enum : option (dict string);
  a_requirement : option string }.

(** The value stored under an attribute name: a spec, or a list of paths
    as under ["$include"] in [INTERNAL_OBJECTS]. *)
Inductive AttrValue : Type :=
| AttrDict (spec : AttrSpec)
| AttrList (paths : list string).

(** An object or class spec. *)
Record ObjectSpec : Type := mkObjectSpec {
  os_caption : option string;
  os_name : Entry string;
  os_description : option string;
  os_extends : option string;
  os_type : Entry string;
  os_attributes : Entry (dict AttrValue) }.

(** The document as loaded from JSON ... *)
Record Document : Type := mkDocument {
  doc_types : Entry (gmap string TypeSpec);
  doc_objects : Entry (gmap string ObjectSpec);
  doc_classes : Entry (dict ObjectSpec) }.

(** ... and [base_schema] as [OcsfToContract.__init__] leaves it, where the
    [objects] section is known to exist. *)
Record Schema : Type := mkSchema {
  sch_types : Entry (gmap string TypeSpec);
  sch_objects : gmap string ObjectSpec;
  sch_classes : Entry (dict ObjectSpec) }.

(** ** The canonical side *)

(** One record for the dictionaries built by [_build_scalar_type] and
    [_get_field_args]: type descriptors, reference descriptors, array
    descriptors and the keyword arguments of [Field]. *)
#[warnings="-register-all"]
Inductive Desc : Type := mkDesc {
  d_title : option string;
  d_description : option string;
  d_tags : option (list string);
  d_observable : option Z;
  d_type : option string;
  d_ref : option string;
  d_items : option Desc;
  d_minLength : option Z;
  d_maxLength : option Z;
  d_minimum : option Z;
  d_maximum : option Z;
  d_observable_id : option Z;
  d_pii : option bool;
  d_enum : option (list string);
  d_required : option bool }.

(** The empty dictionary [{}]. *)
Definition empty_desc : Desc :=
  mkDesc None None None None None None None None None None None None None None None.

(** Lookup in [ChainMap(a, b)]: the first mapping that has the key wins. *)
Definition first_of {A : Type} (a b : option A) : option A :=
  match a with
  | Some _ => a
  | None => b
  end.

(** [dict(ChainMap(a, b))] *)
Definition chain_desc (a b : Desc) : Desc :=
  {| d_title := first_of (d_title a) (d_title b);
     d_description := first_of (d_description a) (d_description b);
     d_tags := first_of (d_tags a) (d_tags b);
     d_observable := first_of (d_observable a) (d_observable b);
     d_type := first_of (d_type a) (d_type b);
     d_ref := first_of (d_ref a) (d_ref b);
     d_items := first_of (d_items a) (d_items b);
     d_minLength := first_of (d_minLength a) (d_minLength b);
     d_maxLength := first_of (d_maxLength a) (d_maxLength b);
     d_minimum := first_of (d_minimum a) (d_minimum b);
     d_maximum := first_of (d_maximum a) (d_maximum b);
     d_observable_id := first_of (d_observable_id a) (d_observable_id b);
     d_pii := first_of (d_pii a) (d_pii b);
     d_enum := first_of (d_enum a) (d_enum b);
     d_required := first_of (d_required a) (d_required b) |}.

(** [kwargs["tags"].append(t)]; [kwargs] always has the key. *)
Definition append_tag (t : string) (kw : Desc) : Desc :=
  {| d_title := d_title kw; d_description := d_description kw;
     d_tags := Some (app (default [] (d_tags kw)) [t]);
     d_observable := d_observable kw; d_type := d_type kw; d_ref := d_ref kw;
     d_items := d_items kw; d_minLength := d_minLength kw;
     d_maxLength := d_maxLength kw; d_minimum := d_minimum kw;
     d_maximum := d_maximum kw; d_observable_id := d_observable_id kw;
     d_pii := d_pii kw; d_enum := d_enum kw; d_required := d_required kw |}.

(** [kwargs["observable"] = v] *)
Definition set_observable (v : Z) (kw : Desc) : Desc :=
  {| d_title := d_title kw; d_description := d_description kw;
     d_tags := d_tags kw;
     d_observable := Some v; d_type := d_type kw; d_ref := d_ref kw;
     d_items := d_items kw; d_minLength := d_minLength kw;
     d_maxLength := d_maxLength kw; d_minimum := d_minimum kw;
     d_maximum := d_maximum kw; d_observable_id := d_observable_id kw;
     d_pii := d_pii kw; d_enum := d_enum kw; d_required := d_required kw |}.

(** [kwargs["enum"] = v] *)
Definition set_enum (v : list string) (kw : Desc) : Desc :=
  {| d_title := d_title kw; d_description := d_description kw;
     d_tags := d_tags kw;
     d_observable := d_observable kw; d_type := d_type kw; d_ref := d_ref kw;
     d_items := d_items kw; d_minLength := d_minLength kw;
     d_maxLength := d_maxLength kw; d_minimum := d_minimum kw;
     d_maximum := d_maximum kw; d_observable_id := d_observable_id kw;
     d_pii := d_pii kw; d_enum := Some v; d_required := d_required kw |}.

(** [kwargs["required"] = v] *)
Definition set_required (v : bool) (kw : Desc) : Desc :=
  {| d_title := d_title kw; d_description := d_description kw;
     d_tags := d_tags kw;
     d_observable := d_observable kw; d_type := d_type kw; d_ref := d_ref kw;
     d_items := d_items kw; d_minLength := d_minLength kw;
     d_maxLength := d_maxLength kw; d_minimum := d_minimum kw;
     d_maximum := d_maximum kw; d_observable_id := d_observable_id kw;
     d_pii := d_pii kw; d_enum := d_enum kw; d_required := Some v |}.

(** Modelled from the spec: the canonical field, whose class [Field] is
    declared in [datacontract.model.data_contract_specification], outside
    the sources at hand.  A field is built from keyword arguments and
    keeps them; its attribute [ref] reads the key ["$ref"]. *)
Record Field : Type := MkField { field_kwargs : Desc }.

Definition ref (f : Field) : option string := d_ref (field_kwargs f).

(** The dictionary built by [_build_object]. *)
Record ObjDesc : Type := mkObjDesc {
  o_name : option string;
  o_title : option string;
  o_description : option string;
  o_type : option string;
  o_fields : option (dict Field) }.

Definition empty_obj : ObjDesc := mkObjDesc None None None None None.

(** [dict(ChainMap(this_object, base_object))] *)
Definition chain_obj (a b : ObjDesc) : ObjDesc :=
  {| o_name := first_of (o_name a) (o_name b);
     o_title := first_of (o_title a) (o_title b);
     o_description := first_of (o_description a) (o_description b);
     o_type := first_of (o_type a) (o_type b);
     o_fields := first_of (o_fields a) (o_fields b) |}.

(** Modelled from the spec: the canonical model, whose class [Model] is
    declared next to [Field]; it keeps its keyword arguments. *)
Record Model : Type := MkModel {
  m_title : option string;
  m_description : option string;
  m_type : option string;
  m_fields : dict Field }.

(** Modelled from the spec: the part of [DataContractSpecification] that
    the importer reads and writes. *)
Record Contract : Type := mkContract {
  models : option (dict Model);
  definitions : option (gmap string ObjDesc) }.

(** ** State of an importer: the memo tables and the log *)

Inductive LogEvent : Type :=
| WarnDeprecated (name : string)
| WarnInclude (name : string).

Record state : Type := mkState {
  ocsf_types : gmap (option string) Desc;
  ocsf_objects : gmap (option string) ObjDesc;
  warnings : list LogEvent }.

Definition M (A : Type) : Type := state -> outcome A * state.

Definition ret {A : Type} (a : A) : M A := fun s => (Ok a, s).

Definition raise {A : Type} (e : exn) : M A := fun s => (Raise e, s).

Definition lift {A : Type} (o : outcome A) : M A := fun s => (o, s).

Definition bind {A B : Type} (m : M A) (k : A -> M B) : M B :=
  fun s =>
    match m s with
    | (Ok a, s') => k a s'
    | (Raise e, s') => (Raise e, s')
    | (OutOfFuel, s') => (OutOfFuel, s')
    end.

Notation "'let!' x := m 'in' k" := (bind m (fun x => k))
  (at level 10, x name, m at level 100, k at level 200).
Notation "'run!' m 'in' k" := (bind m (fun _ => k))
  (at level 10, m at level 100, k at level 200).

(** [log.warning(...)] *)
Definition log_warning (e : LogEvent) : M unit :=
  fun s => (Ok tt, mkState (ocsf_types s) (ocsf_objects s) (app (warnings s) [e])).

(** ** The importer *)

(** [PII_TYPES] *)
Definition PII_TYPES : list string :=
  ["email_t"; "hostname_t"; "ip_t"; "mac_t"; "username_t"].

Definition REQUIRED : string := "required".

(** [OcsfToContract.__base_types.get] *)
Definition base_types (t : option string) : option string :=
  match t with
  | Some "boolean_t" => Some "boolean"
  | Some "float_t" => Some "float"
  | Some "integer_t" => Some "integer"
  | Some "json_t" => Some "string"
  | Some "long_t" => Some "long"
  | Some "string_t" => Some "string"
  | _ => None
  end.

(** [l[i]] on a list *)
Definition index {A : Type} (l : list A) (i : nat) : outcome A :=
  match nth_error l i with
  | Some a => Ok a
  | None => Raise IndexError
  end.

(** [name in PII_TYPES] *)
Definition in_pii_types (name : option string) : bool :=
  match name with
  | Some n => bool_decide (n ∈ PII_TYPES)
  | None => false
  end.

(** [_build_scalar_type]; [_clean_dict] drops the keys whose value is
    [None], which the record expresses by [None].  In
    [self.base_schema["types"][name]] a missing section raises [KeyError]
    and a section that holds [null] cannot be subscripted. *)
Definition _build_scalar_type (sch : Schema) (name : option string) : outcome Desc :=
  match sch_types sch with
  | Missing => Raise (KeyError (Some "types"))
  | Null => Raise TypeError
  | Value types =>
      match name ≫= (fun n => types !! n) with
      | None => Raise (KeyError name)
      | Some spec =>
          let true_type := if truthy_str (ts_type spec) then ts_type spec else name in
          obind (clean_html (ts_description spec)) (fun description =>
          let min_len := ts_min_len spec in
          let max_len := ts_min_len spec in
          let range_ :=
            if truthy_list (ts_range spec) then default [] (ts_range spec)
            else [None; None] in
          let observable_id := ts_observable spec in
          obind (index range_ 0) (fun minimum =>
          obind (index range_ 1) (fun maximum =>
          Ok {| d_title := None;
                d_description := Some description;
                d_tags := None;
                d_observable := None;
                d_type := base_types true_type;
                d_ref := None;
                d_items := None;
                d_minLength := min_len;
                d_maxLength := max_len;
                d_minimum := minimum;
                d_maximum := maximum;
                d_observable_id := observable_id;
                d_pii := Some (in_pii_types name);
                d_enum := None;
                d_required := None |})))
      end
  end.

(** [get_scalar_type] *)
Definition get_scalar_type (sch : Schema) (name : option string) : M Desc :=
  fun s =>
    match ocsf_types s !! name with
    | Some d => (Ok d, s)
    | None =>
        match _build_scalar_type sch name with
        | Ok d => (Ok d, mkState (<[name := d]> (ocsf_types s)) (ocsf_objects s) (warnings s))
        | Raise e => (Raise e, s)
        | OutOfFuel => (OutOfFuel, s)
        end
    end.

(** [str(x)] inside an f-string, for an optional string *)
Definition str_of (o : option string) : string :=
  match o with
  | Some s => s
  | None => "None"
  end.

(** The reference descriptor [{'type': 'object', '$ref': ...}] *)
Definition ref_desc (obj_type : option string) : Desc :=
  {| d_title := None; d_description := None; d_tags := None;
     d_observable := None;
     d_type := Some "object";
     d_ref := Some ("#/definitions/" +:+ str_of obj_type);
     d_items := None; d_minLength := None; d_maxLength := None;
     d_minimum := None; d_maximum := None; d_observable_id := None;
     d_pii := None; d_enum := None; d_required := None |}.

(** The array descriptor [{'type': 'array', 'items': base}] *)
Definition array_desc (base : Desc) : Desc :=
  {| d_title := None; d_description := None; d_tags := None;
     d_observable := None;
     d_type := Some "array";
     d_ref := None;
     d_items := Some base;
     d_minLength := None; d_maxLength := None;
     d_minimum := None; d_maximum := None; d_observable_id := None;
     d_pii := None; d_enum := None; d_required := None |}.

(** The first [kwargs] of [_get_field_args] *)
Definition scaffold (title : option string) (description : string) : Desc :=
  {| d_title := title; d_description := Some description; d_tags := Some [];
     d_observable := None; d_type := None; d_ref := None; d_items := None;
     d_minLength := None; d_maxLength := None;
     d_minimum := None; d_maximum := None; d_observable_id := None;
     d_pii := None; d_enum := None; d_required := None |}.

(** [_get_field_args] *)
Definition _get_field_args (sch : Schema) (name : string) (spec : AttrValue) : M Desc :=
  match spec with
  | AttrList _ => raise AttributeError
  | AttrDict spec =>
      let title := if truthy_str (a_caption spec) then a_caption spec else Some name in
      let! description := lift (clean_html (a_description spec)) in
      let kwargs := scaffold title description in
      if truthy_bool (a_deprecated spec) then raise DeprecatedField
      else if String.eqb name "$include" then
        run! log_warning (WarnInclude name) in
        ret kwargs
      else
        let group := a_group spec in
        let kwargs := if truthy_str group then append_tag (str_of group) kwargs else kwargs in
        let profile := a_profile spec in
        let kwargs :=
          if truthy_str group then append_tag ("profile:" +:+ str_of profile) kwargs
          else kwargs in
        let observable_id := a_observable spec in
        let kwargs :=
          if truthy_int observable_id then set_observable (default 0 observable_id) kwargs
          else kwargs in
        let obj_type := a_object_type spec in
        let base_type := a_type spec in
        let! base :=
          (if truthy_str obj_type then ret (ref_desc obj_type)
           else get_scalar_type sch base_type) in
        let is_array := a_is_array spec in
        let base := if truthy_bool is_array then array_desc base else base in
        let kwargs := chain_desc kwargs base in
        let enum := a_enum spec in
        let kwargs :=
          if truthy_list enum then set_enum (dict_keys (default [] enum)) kwargs
          else kwargs in
        let requirement := a_requirement spec in
        let kwargs :=
          if bool_decide (requirement = Some REQUIRED) then set_required true kwargs
          else if truthy_str requirement then append_tag (str_of requirement) kwargs
          else kwargs in
        ret kwargs
  end.

(** [get_fields]: the loop, with the dictionary [fields] built so far *)
Fixpoint get_fields_from (sch : Schema) (attributes : dict AttrValue)
    (fields : dict Field) : M (dict Field) :=
  match attributes with
  | [] => ret fields
  | (name, spec) :: rest =>
      fun s =>
        match _get_field_args sch name spec s with
        | (Ok kwargs, s') =>
            get_fields_from sch rest (dict_set name (MkField kwargs) fields) s'
        | (Raise DeprecatedField, s') =>
            (run! log_warning (WarnDeprecated name) in
             get_fields_from sch rest fields) s'
        | (Raise e, s') => (Raise e, s')
        | (OutOfFuel, s') => (OutOfFuel, s')
        end
  end.

Definition get_fields (sch : Schema) (attributes : dict AttrValue) : M (dict Field) :=
  get_fields_from sch attributes [].

(** [d[k]] on a dictionary held as an optional entry *)
Definition item {A : Type} (key : string) (o : option A) : outcome A :=
  match o with
  | Some a => Ok a
  | None => Raise (KeyError (Some key))
  end.

(** [spec["attributes"]] as [get_fields] receives it: the subscript raises
    [KeyError] for a missing key, and for a key that holds [null] the
    [attributes.items()] at the head of [get_fields] raises
    [AttributeError]. *)
Definition attributes_of (spec : ObjectSpec) : outcome (dict AttrValue) :=
  match os_attributes spec with
  | Missing => Raise (KeyError (Some "attributes"))
  | Null => Raise AttributeError
  | Value attributes => Ok attributes
  end.

(** [_build_object], with the recursive call to [get_object] as a parameter *)
Definition _build_object (sch : Schema) (get_object : option string -> M ObjDesc)
    (name : option string) : M ObjDesc :=
  match name ≫= (fun n => sch_objects sch !! n) with
  | None => raise (KeyError name)
  | Some spec =>
      let extends := os_extends spec in
      let! base_object := get_object extends in
      let! description := lift (clean_html (os_description spec)) in
      let! attributes := lift (attributes_of spec) in
      let! fields := get_fields sch attributes in
      let this_object :=
        {| o_name := name;
           o_title := os_caption spec;
           o_description := Some description;
           o_type := Some "object";
           o_fields := Some fields |} in
      ret (chain_obj this_object base_object)
  end.

(** [get_object]; [fuel] bounds the depth of the recursion along [extends] *)
Fixpoint get_object (sch : Schema) (fuel : nat) (name : option string) : M ObjDesc :=
  fun s =>
    match ocsf_objects s !! name with
    | Some d => (Ok d, s)
    | None =>
        match fuel with
        | O => (OutOfFuel, s)
        | S fuel' =>
            match _build_object sch (get_object sch fuel') name s with
            | (Ok d, s') =>
                (Ok d, mkState (ocsf_types s') (<[name := d]> (ocsf_objects s')) (warnings s'))
            | (Raise e, s') => (Raise e, s')
            | (OutOfFuel, s') => (OutOfFuel, s')
            end
        end
    end.

(** The object name a field refers to, when its [ref] points into the
    definitions: [ref and ref.startswith("#/definitions/")], then
    [ref.split("/")[-1]]. *)
Definition ref_target (field : Field) : option string :=
  match ref field with
  | Some r =>
      if truthy_str (Some r) && String.prefix "#/definitions/" r
      then Some (last_segment r) else None
  | None => None
  end.

(** The loop of [get_definitions]; [recurse] is the recursive call
    [self.get_definitions(defn["fields"], known_definitions)]. *)
Fixpoint definitions_loop (sch : Schema) (ofuel : nat)
    (recurse : dict Field -> gmap string ObjDesc -> M (gmap string ObjDesc))
    (model_fields : dict Field) (known_definitions : gmap string ObjDesc)
    : M (gmap string ObjDesc) :=
  match model_fields with
  | [] => ret known_definitions
  | (_, field) :: rest =>
      match ref_target field with
      | None => definitions_loop sch ofuel recurse rest known_definitions
      | Some obj_to_include =>
          match known_definitions !! obj_to_include with
          | Some _ => definitions_loop sch ofuel recurse rest known_definitions
          | None =>
              let! defn := get_object sch ofuel (Some obj_to_include) in
              let known_definitions := <[obj_to_include := defn]> known_definitions in
              let! defn_fields := lift (item "fields" (o_fields defn)) in
              let! known_definitions := recurse defn_fields known_definitions in
              definitions_loop sch ofuel recurse rest known_definitions
          end
      end
  end.

(** [get_definitions]; [ofuel] is the budget of each call to [get_object],
    [fuel] bounds the depth of the recursion of [get_definitions] itself.
    [known_definitions or {}] is the empty mapping for [None]. *)
Fixpoint get_definitions (sch : Schema) (ofuel fuel : nat) (model_fields : dict Field)
    (known_definitions : option (gmap string ObjDesc)) : M (gmap string ObjDesc) :=
  match fuel with
  | O => fun s => (OutOfFuel, s)
  | S fuel' =>
      definitions_loop sch ofuel
        (fun defn_fields known => get_definitions sch ofuel fuel' defn_fields (Some known))
        model_fields (default ∅ known_definitions)
  end.

(** ** [INTERNAL_OBJECTS] and [OcsfToContract.__init__] *)

Definition attr (description : string) (caption requirement : option string) : AttrValue :=
  AttrDict (mkAttrSpec caption (Some description) None None None None None None None None
              requirement).

Definition INTERNAL_OBJECTS : gmap string ObjectSpec :=
  list_to_map
    [ ("_dns",
       {| os_caption := Some "DNS";
          os_name := Value "_dns";
          os_description := Some "The Domain Name System (DNS) object represents the shared information associated with the DNS query and answer objects.";
          os_extends := Some "object";
          os_type := Missing;
          os_attributes := Value
            [ ("class", attr "The class of resource records being queried. See <a target='_blank' href='https://www.rfc-editor.org/rfc/rfc1035.txt'>RFC1035</a>. For example: <code>IN</code>." (Some "Resource Record Class") (Some "recommended"));
              ("packet_uid", attr "The DNS packet identifier assigned by the program that generated the query. The identifier is copied to the response." None (Some "recommended"));
              ("type", attr "The type of resource records being queried. See <a target='_blank' href='https://www.rfc-editor.org/rfc/rfc1035.txt'>RFC1035</a>. For example: A, AAAA, CNAME, MX, and NS." (Some "Resource Record Type") (Some "recommended")) ] |});
      ("_entity",
       {| os_caption := Some "Entity";
          os_name := Value "_entity";
          os_description := Some "The Entity object is an unordered collection of attributes, with a name and unique identifier. It serves as a base object that defines a set of attributes and default constraints available in all objects that extend it.";
          os_extends := Some "object";
          os_type := Missing;
          os_attributes := Value
            [ ("name", attr "The name of the entity." None (Some "recommended"));
              ("uid", attr "The unique identifier of the entity." None (Some "recommended")) ] |});
      ("_resource",
       {| os_caption := Some "Resource";
          os_name := Value "_resource";
          os_description := Some "The Resource object contains attributes that provide information about a particular resource. It serves as a base object, offering attributes that help identify and classify the resource effectively.";
          os_extends := Some "_entity";
          os_type := Missing;
          os_attributes := Value
            [ ("$include", AttrList ["profiles/data_classification.json"]);
              ("data", attr "Additional data describing the resource." None (Some "optional"));
              ("labels", attr "The list of labels/tags associated to a resource." None (Some "optional"));
              ("name", attr "The name of the resource." None None);
              ("type", attr "The resource type as defined by the event source." None (Some "optional"));
              ("uid", attr "The unique identifier of the resource." None None) ] |}) ].

(** The memo tables of a new importer: [{None: {}}] each, and an empty log. *)
Definition init_state : state :=
  mkState {[ None := empty_desc ]} {[ None := empty_obj ]} [].

(** [self.base_schema["objects"]] inside [dict(ChainMap(..., INTERNAL_OBJECTS))]:
    a missing section raises [KeyError]; a section that holds [null] is no
    mapping, and [dict] raises [TypeError] when it iterates over the chain. *)
Definition objects_of (base_schema : Document) : outcome (gmap string ObjectSpec) :=
  match doc_objects base_schema with
  | Missing => Raise (KeyError (Some "objects"))
  | Null => Raise TypeError
  | Value objects => Ok objects
  end.

(** [OcsfToContract.__init__]: the document's objects take precedence over
    [INTERNAL_OBJECTS]. *)
Definition OcsfToContract_init (base_schema : Document) : outcome (Schema * state) :=
  obind (objects_of base_schema) (fun objects =>
  Ok ({| sch_types := doc_types base_schema;
         sch_objects := objects ∪ INTERNAL_OBJECTS;
         sch_classes := doc_classes base_schema |},
      init_state)).

(** ** [import_ocsfschema] *)

(** [{c: classes[c] for c in ocsf_classes}] *)
Fixpoint select_classes (classes : dict ObjectSpec) (ocsf_classes : list string)
    (acc : dict ObjectSpec) : outcome (dict ObjectSpec) :=
  match ocsf_classes with
  | [] => Ok acc
  | c :: rest =>
      match dict_get c classes with
      | Some spec => select_classes classes rest (dict_set c spec acc)
      | None => Raise (KeyError (Some c))
      end
  end.

(** The first loop of [import_ocsfschema]: one model per class *)
Fixpoint import_models (sch : Schema) (input_models : dict ObjectSpec)
    (models : dict Model) : M (dict Model) :=
  match input_models with
  | [] => ret models
  | (name, spec) :: rest =>
      let! attributes := lift (attributes_of spec) in
      let! fields := get_fields sch attributes in
      let! description := lift (clean_html (os_description spec)) in
      let model :=
        {| m_title := get_default (os_name spec) name;
           m_description := Some description;
           m_type := get_default (os_type spec) "table";
           m_fields := fields |} in
      import_models sch rest (dict_set name model models)
  end.

(** The second loop: the definitions of all models *)
Fixpoint collect_definitions (sch : Schema) (ofuel fuel : nat) (models : dict Model)
    (definitions : gmap string ObjDesc) : M (gmap string ObjDesc) :=
  match models with
  | [] => ret definitions
  | (_, model) :: rest =>
      let! definitions :=
        get_definitions sch ofuel fuel (m_fields model) (Some definitions) in
      collect_definitions sch ofuel fuel rest definitions
  end.

(** [ocsf_contract.base_schema["classes"]] as each branch of
    [import_ocsfschema] uses it: a missing section raises [KeyError]; a
    section that holds [null] cannot be subscripted by a class of the
    filter, and without filter it has no [items]. *)
Definition classes_of (sch : Schema) (filtered : bool) : outcome (dict ObjectSpec) :=
  match sch_classes sch with
  | Missing => Raise (KeyError (Some "classes"))
  | Null => Raise (if filtered then TypeError else AttributeError)
  | Value classes => Ok classes
  end.

Definition import_ocsfschema (ofuel fuel : nat) (data_contract_specification : Contract)
    (sch : Schema) (ocsf_classes : option (list string)) : M Contract :=
  let models0 := default [] (models data_contract_specification) in
  let! classes := lift (classes_of sch (truthy_list ocsf_classes)) in
  let! input_models :=
    lift (if truthy_list ocsf_classes
          then select_classes classes (map replace_hyphens (default [] ocsf_classes)) []
          else Ok classes) in
  let! models1 := import_models sch input_models models0 in
  let! definitions := collect_definitions sch ofuel fuel models1 ∅ in
  ret {| models := Some models1; definitions := Some definitions |}.

(** ** What the memo tables stand for

    The same computations without the memo tables and without the log.
    They are used to say what a table may hold: an entry is the value that
    building it anew would give. *)

Definition scalar_type_of (sch : Schema) (name : option string) : outcome Desc :=
  match name with
  | None => Ok empty_desc
  | Some _ => _build_scalar_type sch name
  end.

Definition field_args_of (sch : Schema) (name : string) (spec : AttrValue) : outcome Desc :=
  match spec with
  | AttrList _ => Raise AttributeError
  | AttrDict spec =>
      let title := if truthy_str (a_caption spec) then a_caption spec else Some name in
      obind (clean_html (a_description spec)) (fun description =>
      let kwargs := scaffold title description in
      if truthy_bool (a_deprecated spec) then Raise DeprecatedField
      else if String.eqb name "$include" then Ok kwargs
      else
        let group := a_group spec in
        let kwargs := if truthy_str group then append_tag (str_of group) kwargs else kwargs in
        let profile := a_profile spec in
        let kwargs :=
          if truthy_str group then append_tag ("profile:" +:+ str_of profile) kwargs
          else kwargs in
        let observable_id := a_observable spec in
        let kwargs :=
          if truthy_int observable_id then set_observable (default 0 observable_id) kwargs
          else kwargs in
        let obj_type := a_object_type spec in
        let base_type := a_type spec in
        obind (if truthy_str obj_type then Ok (ref_desc obj_type)
               else scalar_type_of sch base_type) (fun base =>
        let is_array := a_is_array spec in
        let base := if truthy_bool is_array then array_desc base else base in
        let kwargs := chain_desc kwargs base in
        let enum := a_enum spec in
        let kwargs :=
          if truthy_list enum then set_enum (dict_keys (default [] enum)) kwargs
          else kwargs in
        let requirement := a_requirement spec in
        let kwargs :=
          if bool_decide (requirement = Some REQUIRED) then set_required true kwargs
          else if truthy_str requirement then append_tag (str_of requirement) kwargs
          else kwargs in
        Ok kwargs))
  end.

Fixpoint fields_from_of (sch : Schema) (attributes : dict AttrValue)
    (fields : dict Field) : outcome (dict Field) :=
  match attributes with
  | [] => Ok fields
  | (name, spec) :: rest =>
      match field_args_of sch name spec with
      | Ok kwargs => fields_from_of sch rest (dict_set name (MkField kwargs) fields)
      | Raise DeprecatedField => fields_from_of sch rest fields
      | Raise e => Raise e
      | OutOfFuel => OutOfFuel
      end
  end.

Fixpoint object_of (sch : Schema) (fuel : nat) (name : option string) : outcome ObjDesc :=
  match name with
  | None => Ok empty_obj
  | Some n =>
      match fuel with
      | O => OutOfFuel
      | S fuel' =>
          match sch_objects sch !! n with
          | None => Raise (KeyError name)
          | Some spec =>
              obind (object_of sch fuel' (os_extends spec)) (fun base_object =>
              obind (clean_html (os_description spec)) (fun description =>
              obind (attributes_of spec) (fun attributes =>
              obind (fields_from_of sch attributes []) (fun fields =>
              Ok (chain_obj
                    {| o_name := name;
                       o_title := os_caption spec;
                       o_description := Some description;
                       o_type := Some "object";
                       o_fields := Some fields |} base_object)))))
          end
      end
  end.

(** The table of scalar types holds the empty descriptor under the
    sentinel and, under a name, what [_build_scalar_type] returns for it. *)
Definition types_consistent (sch : Schema) (s : state) : Prop :=
  ocsf_types s !! None = Some empty_desc /\
  forall n d, ocsf_types s !! Some n = Some d -> _build_scalar_type sch (Some n) = Ok d.

(** The table of objects holds the empty descriptor under the sentinel
    and, under a name, the object resolved within depth [bound]. *)
Definition objects_below (bound : nat) (sch : Schema) (s : state) : Prop :=
  ocsf_objects s !! None = Some empty_obj /\
  forall n d, ocsf_objects s !! Some n = Some d -> object_of sch bound (Some n) = Ok d.

(** The invariant of the state of an importer. *)
Definition consistent (sch : Schema) (s : state) : Prop :=
  types_consistent sch s /\ exists bound, objects_below bound sch s.

(** [later sch s s']: within one import the importer can be in the state
    [s'] after it was in [s]: any number of calls of its methods, whatever
    their arguments and outcomes, lie between the two. *)
Inductive later (sch : Schema) : state -> state -> Prop :=
| later_now s : later sch s s
| later_get_scalar_type s n r s1 s' :
    get_scalar_type sch n s = (r, s1) -> later sch s1 s' -> later sch s s'
| later_get_object s fuel n r s1 s' :
    get_object sch fuel n s = (r, s1) -> later sch s1 s' -> later sch s s'
| later_get_field_args s name spec r s1 s' :
    _get_field_args sch name spec s = (r, s1) -> later sch s1 s' -> later sch s s'
| later_get_fields s attributes r s1 s' :
    get_fields sch attributes s = (r, s1) -> later sch s1 s' -> later sch s s'
| later_get_definitions s ofuel fuel fields known r s1 s' :
    get_definitions sch ofuel fuel fields known s = (r, s1) -> later sch s1 s' ->
    later sch s s'.

(** [tables_grow s s']: every entry of the two memo tables of [s] is in
    the tables of [s'], with the same descriptor. *)
Definition tables_grow (s s' : state) : Prop :=
  ocsf_types s ⊆ ocsf_types s' /\ ocsf_objects s ⊆ ocsf_objects s'.

(** ** References between objects *)


(** [points_to field n]: the field carries a [$ref] that points into the
    shared definitions at the object named [n]. *)
Definition points_to (field : Field) (n : string) : Prop :=
  ref field = Some ("#/definitions/" +:+ n).

(** [references fields n]: some field of [fields] points to [n]. *)
Definition references (fields : dict Field) (n : string) : Prop :=
  exists k field, In (k, field) fields /\ points_to field n.


(** The program's side of the same notions.  [refers fields n]: the
    Definition Collector reads the name [n] off the [$ref] of some field
    of [fields], the way [ref_target] does it. *)
Definition refers (fields : dict Field) (n : string) : Prop :=
  exists k field, In (k, field) fields /\ ref_target field = Some n.



(** ** Predicates on texts, attributes and definitions *)

(** [has_tag s]: the regular expression [<[^>]+>] matches somewhere in
    [s], that is, some [<] is followed by at least one character other
    than [>] and then by a [>]. *)
Fixpoint has_tag (s : string) : bool :=
  match s with
  | EmptyString => false
  | String c r =>
      (Ascii.eqb c lt_char &&
       match index_gt r with Some (S _) => true | _ => false end) || has_tag r
  end.

(** [has_lt s]: the character [<] occurs in [s]. *)
Fixpoint has_lt (s : string) : bool :=
  match s with
  | EmptyString => false
  | String c r => Ascii.eqb c lt_char || has_lt r
  end.

(** [has_slash s]: the character [/] occurs in [s]. *)
Fixpoint has_slash (s : string) : bool :=
  match s with
  | EmptyString => false
  | String c r => Ascii.eqb c slash_char || has_slash r
  end.

(** [spec.get("deprecated")] is true for the value of an attribute *)
Definition deprecated (v : AttrValue) : bool :=
  match v with
  | AttrDict spec => truthy_bool (a_deprecated spec)
  | AttrList _ => false
  end.

(** The name reached from the object [n] by following [extends] [k] times,
    as long as each object on the way is in the schema and extends one. *)
Fixpoint ancestor (sch : Schema) (k : nat) (n : string) : option string :=
  match k with
  | O => Some n
  | S k' =>
      match sch_objects sch !! n with
      | Some spec =>
          match os_extends spec with
          | Some b => ancestor sch k' b
          | None => None
          end
      | None => None
      end
  end.

(** [closed defs]: every name that the collector reads off a field of a
    definition of [defs] has a definition in [defs]. *)
Definition closed (defs : gmap string ObjDesc) : Prop :=
  forall m d fields n,
    defs !! m = Some d -> o_fields d = Some fields -> refers fields n -> is_Some (defs !! n).

(** What a call of [get_definitions] on [fields] and [known] that returns
    [known'] has done, in terms of the descriptors it stored: nothing is
    lost, the names the collector reads off [fields] are defined, and so
    are those it reads off each definition that was added. *)
Definition gathered (fields : dict Field) (known known' : gmap string ObjDesc) : Prop :=
  known ⊆ known' /\
  (forall n, refers fields n -> is_Some (known' !! n)) /\
  (forall m d defn_fields n,
     known !! m = None -> known' !! m = Some d ->
     o_fields d = Some defn_fields -> refers defn_fields n -> is_Some (known' !! n)).

(** ** Documents and specs used as examples *)

Definition plain_attr (description : string) : AttrValue := attr description None None.

(** A base object [B] with attributes [a] and [b], and an object [D] that
    extends it with the single attribute [c]. *)
Definition schema_BD : Schema :=
  {| sch_types := Value ∅;
     sch_objects :=
       list_to_map
         [ ("B", mkObjectSpec (Some "Base") (Value "B") (Some "the base") None Missing
                   (Value [("a", plain_attr "first"); ("b", plain_attr "second")]));
           ("D", mkObjectSpec None (Value "D") (Some "the derived") (Some "B") Missing
                   (Value [("c", plain_attr "third")])) ];
     sch_classes := Value [] |}.

(** [spec] with its [max_len] replaced *)
Definition with_max_len (m : option Z) (spec : TypeSpec) : TypeSpec :=
  {| ts_type := ts_type spec; ts_description := ts_description spec;
     ts_min_len := ts_min_len spec; ts_max_len := m; ts_regex := ts_regex spec;
     ts_range := ts_range spec; ts_observable := ts_observable spec |}.

Definition schema_port : Schema :=
  {| sch_types := Value {[ "port_t" :=
        mkTypeSpec (Some "integer_t") (Some "A port number") (Some 1) (Some 5) None
                   (Some [Some 0; Some 65535]) None ]};
     sch_objects := ∅;
     sch_classes := Value [] |}.

(** The tag that lines 255-259 of the source derive from [requirement] *)
Definition requirement_tags (spec : AttrSpec) : list string :=
  if bool_decide (a_requirement spec = Some REQUIRED) then []
  else if truthy_str (a_requirement spec) then [str_of (a_requirement spec)]
  else [].

Definition schema_empty : Schema :=
  {| sch_types := Value ∅; sch_objects := ∅; sch_classes := Value [] |}.

(** [group] without [profile], and [profile] without [group] *)
Definition spec_group_only : AttrSpec :=
  mkAttrSpec None (Some "d") None (Some "primary") None None None None None None None.
Definition spec_profile_only : AttrSpec :=
  mkAttrSpec None (Some "d") None None (Some "cloud") None None None None None None.

(** [group] present but empty *)
Definition spec_group_empty : AttrSpec :=
  mkAttrSpec None (Some "d") None (Some "") (Some "cloud") None None None None None None.

Definition spec_array_of_foo : AttrSpec :=
  mkAttrSpec None (Some "d") None None None None (Some "foo") None (Some true) None None.

Definition spec_observable (v : Z) : AttrSpec :=
  mkAttrSpec None (Some "d") None None None (Some v) None None None None None.

(** A class spec that stops the import: it has no description, or one
    of its attributes has none. *)
Definition lacks_description (spec : ObjectSpec) : Prop :=
  os_description spec = None \/
  exists attributes name a,
    os_attributes spec = Value attributes /\ In (name, AttrDict a) attributes /\
    a_description a = None.

(** A deprecated attribute between two others *)
Definition spec_deprecated : AttrSpec :=
  mkAttrSpec None (Some "no longer used") (Some true) None None None None None None None None.
Definition attributes_with_deprecated : dict AttrValue :=
  [("a", plain_attr "first"); ("old", AttrDict spec_deprecated); ("b", plain_attr "second")].

(** A deprecated attribute without a description *)
Definition spec_deprecated_bare : AttrSpec :=
  mkAttrSpec None None (Some true) None None None None None None None None.
Definition schema_deprecated_bare : Schema :=
  {| sch_types := Value ∅;
     sch_objects := INTERNAL_OBJECTS;
     sch_classes := Value
       [("login", mkObjectSpec None (Value "Login") (Some "A login") None Missing
                    (Value [("user", plain_attr "who"); ("old", AttrDict spec_deprecated_bare)]))] |}.

(** [OcsfImporter.import_source] on a document that is already loaded:
    a new importer is built, then [import_ocsfschema] runs. *)
Definition import_source (ofuel fuel : nat) (data_contract_specification : Contract)
    (source : Document) (ocsf_class : option (list string)) : outcome Contract :=
  match OcsfToContract_init source with
  | Ok (sch, s) =>
      (import_ocsfschema ofuel fuel data_contract_specification sch ocsf_class s).1
  | Raise e => Raise e
  | OutOfFuel => OutOfFuel
  end.

(** The base object that [_entity] of [INTERNAL_OBJECTS] extends *)
Definition object_base : ObjectSpec :=
  mkObjectSpec (Some "Object") (Value "object") (Some "The base of all objects.") None Missing
    (Value []).

(** The document of the end-to-end example: the class [login] with the
    attribute [user], each with the given description *)
Definition login_document (class_description attribute_description : option string)
    : Document :=
  {| doc_types := Value ∅;
     doc_objects := Value {[ "object" := object_base ]};
     doc_classes := Value
       [("login",
         mkObjectSpec None (Value "Login") class_description None Missing
           (Value [("user",
                   AttrDict (mkAttrSpec None attribute_description None None None None
                               (Some "_entity") None None None None))]))] |}.

(** An attribute that refers to the object [target] *)
Definition ref_attr (target : string) : AttrValue :=
  AttrDict (mkAttrSpec None (Some "a reference") None None None None (Some target) None None
              None None).

(** Objects that refer to each other in a diamond ([a] to [b] and [c],
    both to [d]) closed into a cycle ([d] back to [a]) *)
Definition schema_cycle : Schema :=
  {| sch_types := Value ∅;
     sch_objects :=
       list_to_map
         [ ("a", mkObjectSpec None (Value "a") (Some "top") None Missing
                   (Value [("left", ref_attr "b"); ("right", ref_attr "c")]));
           ("b", mkObjectSpec None (Value "b") (Some "left") None Missing
                   (Value [("down", ref_attr "d")]));
           ("c", mkObjectSpec None (Value "c") (Some "right") None Missing
                   (Value [("down", ref_attr "d")]));
           ("d", mkObjectSpec None (Value "d") (Some "bottom") None Missing
                   (Value [("back", ref_attr "a")])) ];
     sch_classes := Value [] |}.

(** The fields of a model with one reference to [a] *)
Definition fields_cycle : dict Field := [("root", MkField (ref_desc (Some "a")))].

(** A scalar type whose [range] has one element only *)
Definition schema_short_range : Schema :=
  {| sch_types := Value {[ "port_t" :=
        mkTypeSpec (Some "integer_t") (Some "A port number") None None None
                   (Some [Some 0]) None ]};
     sch_objects := ∅;
     sch_classes := Value [] |}.

(** An attribute of the scalar type [t] *)
Definition spec_typed (t : string) : AttrSpec :=
  mkAttrSpec None (Some "d") None None None None None (Some t) None None None.

(** An array attribute without [type] and without [object_type] *)
Definition spec_untyped_array : AttrSpec :=
  mkAttrSpec None (Some "d") None None None None None None (Some true) None None.

(** A required attribute with an [enum] of two entries *)
Definition spec_enum : AttrSpec :=
  mkAttrSpec None (Some "d") None None None None None None None
    (Some [("1", "Low"); ("2", "High")]) (Some "required").

(** Only the objects of [INTERNAL_OBJECTS], as for a document whose
    [objects] section is empty *)
Definition schema_internal_only : Schema :=
  {| sch_types := Value ∅; sch_objects := INTERNAL_OBJECTS; sch_classes := Value [] |}.

(** [INTERNAL_OBJECTS] under a document that defines the base [object] *)
Definition schema_with_object : Schema :=
  {| sch_types := Value ∅;
     sch_objects := {[ "object" := object_base ]} ∪ INTERNAL_OBJECTS;
     sch_classes := Value [] |}.

(** Two objects that extend each other *)
Definition schema_loop : Schema :=
  {| sch_types := Value ∅;
     sch_objects :=
       list_to_map
         [ ("a", mkObjectSpec None (Value "a") (Some "first") (Some "b") Missing (Value []));
           ("b", mkObjectSpec None (Value "b") (Some "second") (Some "a") Missing (Value [])) ];
     sch_classes := Value [] |}.

(** A document with the class [network-activity] written with a hyphen
    and the class [file_activity] *)
Definition schema_two_classes : Schema :=
  {| sch_types := Value ∅;
     sch_objects := {[ "object" := object_base ]} ∪ INTERNAL_OBJECTS;
     sch_classes := Value
       [("file_activity", mkObjectSpec None Missing (Some "File <b>activity</b>") None Missing
                            (Value [("actor", ref_attr "_entity")]));
        ("network_activity", mkObjectSpec None (Value "Network") (Some "Network activity") None
                               (Value "view") (Value [("peer", plain_attr "the other end")]))] |}.

(** A contract that already holds a model *)
Definition contract_with_model : Contract :=
  {| models := Some [("orders", MkModel (Some "Orders") None (Some "table") [])];
     definitions := None |}.

(** An attribute that refers to the object [target] *)
Definition spec_object (target : string) : AttrSpec :=
  mkAttrSpec None (Some "a reference") None None None None (Some target) None None None None.




(** A class whose [name] and [type] hold [null] *)
Definition schema_null_name : Schema :=
  {| sch_types := Value ∅;
     sch_objects := INTERNAL_OBJECTS;
     sch_classes := Value [("events", mkObjectSpec None Null (Some "Events") None Null (Value []))] |}.


(** * Properties *)

(** ** The memo tables hold what building anew would give *)


Lemma get_scalar_type_spec sch n s :
  types_consistent sch s ->
  exists s', get_scalar_type sch n s = (scalar_type_of sch n, s') /\
             types_consistent sch s' /\
             ocsf_objects s' = ocsf_objects s /\ warnings s' = warnings s.
Proof.
  intros [H0 Hn]. unfold get_scalar_type.
  destruct (ocsf_types s !! n) as [d|] eqn:E.
  - exists s. split; [|by repeat split].
    destruct n as [n|]; simpl.
    + by rewrite (Hn _ _ E).
    + congruence.
  - destruct n as [n|]; [|congruence]. simpl.
    destruct (_build_scalar_type sch (Some n)) as [d|e|] eqn:B.
    + eexists. split; [reflexivity|]. unfold types_consistent. simpl. repeat split; try done.
      * by rewrite lookup_insert_ne.
      * intros m d'. destruct (decide (m = n)) as [->|Hne].
        -- rewrite lookup_insert_eq. congruence.
        -- rewrite lookup_insert_ne; [apply Hn | congruence].
    + exists s. by repeat split.
    + exists s. by repeat split.
Qed.

Ltac same_state s := exists s; split; [reflexivity | split; [assumption | reflexivity]].

Lemma _get_field_args_spec sch name spec s :
  types_consistent sch s ->
  exists s', _get_field_args sch name spec s = (field_args_of sch name spec, s') /\
             types_consistent sch s' /\ ocsf_objects s' = ocsf_objects s.
Proof.
  intros Hs. destruct spec as [spec|paths]; simpl.
  2:{ same_state s. }
  unfold bind, lift, raise, ret.
  destruct (clean_html (a_description spec)) as [description|e|]; simpl;
    try same_state s.
  destruct (truthy_bool (a_deprecated spec)); [same_state s|].
  destruct (String.eqb name "$include").
  { eexists. split; [reflexivity|]. by split. }
  destruct (truthy_str (a_object_type spec)).
  { same_state s. }
  destruct (get_scalar_type_spec sch (a_type spec) s Hs) as (s' & E & Hs' & Ho & _).
  rewrite E. exists s'.
  destruct (scalar_type_of sch (a_type spec)); simpl; (split; [reflexivity | split; assumption]).
Qed.

Lemma get_fields_from_spec sch attributes : forall fields s,
  types_consistent sch s ->
  exists s', get_fields_from sch attributes fields s = (fields_from_of sch attributes fields, s') /\
             types_consistent sch s' /\ ocsf_objects s' = ocsf_objects s.
Proof.
  induction attributes as [|[name spec] rest IH]; intros fields s Hs; simpl.
  { same_state s. }
  destruct (_get_field_args_spec sch name spec s Hs) as (s1 & E & Hs1 & Ho1).
  rewrite E.
  destruct (field_args_of sch name spec) as [kwargs|e|].
  - destruct (IH (dict_set name (MkField kwargs) fields) s1 Hs1) as (s2 & E2 & Hs2 & Ho2).
    exists s2. rewrite E2. split; [done|]. split; [done|]. congruence.
  - destruct e; try (exists s1; split; [reflexivity|split; assumption]).
    unfold bind, log_warning.
    set (s1' := mkState _ _ _).
    destruct (IH fields s1') as (s2 & E2 & Hs2 & Ho2); [done|].
    exists s2. rewrite E2. split; [done|]. split; [done|]. rewrite Ho2. done.
  - exists s1. split; [reflexivity|split; assumption].
Qed.

Lemma object_of_mono sch : forall fuel fuel' n d,
  object_of sch fuel n = Ok d -> (fuel <= fuel')%nat -> object_of sch fuel' n = Ok d.
Proof.
  induction fuel as [|fuel IH]; intros fuel' [n|] d H Hle; simpl in *; try done.
  - by destruct fuel'.
  - destruct fuel' as [|fuel']; [lia|]. simpl.
    destruct (sch_objects sch !! n) as [spec|]; [|done].
    destruct (object_of sch fuel (os_extends spec)) as [base| |] eqn:E; try done.
    rewrite (IH fuel' _ _ E); [done | lia].
  - by destruct fuel'.
Qed.

Lemma object_of_None sch fuel : object_of sch fuel None = Ok empty_obj.
Proof. by destruct fuel. Qed.

Lemma object_of_in_schema sch fuel n d :
  object_of sch fuel (Some n) = Ok d -> is_Some (sch_objects sch !! n).
Proof.
  destruct fuel; simpl; [done|].
  destruct (sch_objects sch !! n); [eauto | done].
Qed.


Lemma objects_below_mono sch s bound bound' :
  objects_below bound sch s -> (bound <= bound')%nat -> objects_below bound' sch s.
Proof.
  intros [H0 Hn] Hle. split; [done|].
  intros n d H. eapply object_of_mono; eauto.
Qed.

Ltac close_keep Hk :=
  destruct Hk as [? ?]; split; [assumption|]; split; [assumption|]; intros ? ?; discriminate.

Lemma get_object_sound sch : forall fuel bound n s r s',
  types_consistent sch s -> objects_below bound sch s ->
  get_object sch fuel n s = (r, s') ->
  types_consistent sch s' /\ objects_below (bound + fuel) sch s' /\
  (forall d, r = Ok d -> object_of sch (bound + fuel) n = Ok d).
Proof.
  induction fuel as [|fuel IH]; intros bound n s r s' Ht Ho H.
  - simpl in H. destruct (ocsf_objects s !! n) as [d|] eqn:E.
    + injection H as <- <-. split; [done|]. split.
      * eapply objects_below_mono; eauto. lia.
      * intros d' [= <-]. destruct n as [n|].
        -- eapply object_of_mono; [by apply Ho | lia].
        -- destruct Ho as [H0 _]. rewrite object_of_None. congruence.
    + injection H as <- <-. split; [done|]. split; [|done].
      eapply objects_below_mono; eauto. lia.
  - simpl in H. destruct (ocsf_objects s !! n) as [d|] eqn:E.
    + injection H as <- <-. split; [done|]. split.
      * eapply objects_below_mono; eauto. lia.
      * intros d' [= <-]. destruct n as [n|].
        -- eapply object_of_mono; [by apply Ho | lia].
        -- destruct Ho as [H0 _]. rewrite object_of_None. congruence.
    + assert (Hkeep : types_consistent sch s /\ objects_below (bound + S fuel) sch s).
      { split; [done|]. eapply objects_below_mono; eauto. lia. }
      unfold _build_object in H.
      destruct n as [n|]; simpl in H.
      2:{ unfold raise in H. injection H as <- <-. close_keep Hkeep. }
      destruct (sch_objects sch !! n) as [spec|] eqn:Es.
      2:{ unfold raise in H. injection H as <- <-. close_keep Hkeep. }
      unfold bind at 1 in H.
      destruct (get_object sch fuel (os_extends spec) s) as [r1 s1] eqn:E1.
      destruct (IH bound _ _ _ _ Ht Ho E1) as (Ht1 & Ho1 & Hr1).
      assert (Hkeep1 : types_consistent sch s1 /\ objects_below (bound + S fuel) sch s1).
      { split; [done|]. eapply objects_below_mono; eauto. lia. }
      destruct r1 as [base|e|].
      2,3: injection H as <- <-; close_keep Hkeep1.
      specialize (Hr1 _ eq_refl).
      unfold bind, lift in H.
      destruct (clean_html (os_description spec)) as [description|e|] eqn:Ec.
      2,3: injection H as <- <-; close_keep Hkeep1.
      destruct (attributes_of spec) as [attributes|e|] eqn:Ea.
      2,3: injection H as <- <-; close_keep Hkeep1.
      unfold get_fields in H.
      destruct (get_fields_from_spec sch attributes [] s1 Ht1) as (s2 & E2 & Ht2 & Ho2).
      rewrite E2 in H.
      assert (Hkeep2 : types_consistent sch s2 /\ objects_below (bound + S fuel) sch s2).
      { split; [done|]. destruct Hkeep1 as [_ [Ha Hb]]. split; rewrite Ho2; done. }
      destruct (fields_from_of sch attributes []) as [fields|e|] eqn:Ef.
      2,3: injection H as <- <-; close_keep Hkeep2.
      unfold ret in H. injection H as <- <-.
      assert (Hval : object_of sch (bound + S fuel) (Some n) =
                     Ok (chain_obj {| o_name := Some n; o_title := os_caption spec;
                                      o_description := Some description;
                                      o_type := Some "object";
                                      o_fields := Some fields |} base)).
      { replace (bound + S fuel)%nat with (S (bound + fuel)) by lia.
        simpl. rewrite Es, Hr1. simpl. rewrite Ec. simpl. rewrite Ea. simpl.
        rewrite Ef. done. }
      split; [done|]. split; [|by intros d [= <-]].
      destruct Hkeep2 as [_ [Ha Hb]]. split; simpl.
      * by rewrite lookup_insert_ne.
      * intros m d. destruct (decide (m = n)) as [->|Hne].
        -- rewrite lookup_insert_eq. by intros [= <-].
        -- rewrite lookup_insert_ne; [apply Hb | congruence].
Qed.



Lemma consistent_init sch : consistent sch init_state.
Proof.
  split; [split|exists 0%nat; split]; simpl.
  - by rewrite lookup_singleton_eq.
  - intros n d. by rewrite lookup_singleton_ne.
  - by rewrite lookup_singleton_eq.
  - intros n d. by rewrite lookup_singleton_ne.
Qed.

Lemma get_object_consistent sch fuel n s r s' :
  consistent sch s -> get_object sch fuel n s = (r, s') -> consistent sch s'.
Proof.
  intros [Ht [bound Ho]] H.
  destruct (get_object_sound _ _ _ _ _ _ _ Ht Ho H) as (Ht' & Ho' & _).
  split; eauto.
Qed.


(** ** The Definition Collector: termination and closure *)



Lemma refers_cons_inv k field rest n :
  refers ((k, field) :: rest) n -> ref_target field = Some n \/ refers rest n.
Proof.
  intros (k' & f' & [Heq|Hin] & Hr).
  - left. congruence.
  - right. by exists k', f'.
Qed.












(** ** The claims of the specification *)

(** C1: resolving an object [name] that extends [base_name] for the first
    time resolves the base, translates the object's own attributes, and
    returns a descriptor in which each key the object has itself ([name],
    [description], [type], [fields], and [title] when it has a caption)
    replaces the base's: [fields] are the own fields only, whatever the
    fields of the base are; only a missing caption lets the title of the
    base through. *)
Theorem build_object_shallow_override sch fuel name base_name spec s r s' :
  ocsf_objects s !! Some name = None ->
  sch_objects sch !! name = Some spec ->
  os_extends spec = Some base_name ->
  get_object sch (S fuel) (Some name) s = (Ok r, s') ->
  exists base s1 description attributes fields s2,
    get_object sch fuel (Some base_name) s = (Ok base, s1) /\
    clean_html (os_description spec) = Ok description /\
    os_attributes spec = Value attributes /\
    get_fields sch attributes s1 = (Ok fields, s2) /\
    o_name r = Some name /\
    o_title r = first_of (os_caption spec) (o_title base) /\
    o_description r = Some description /\
    o_type r = Some "object" /\
    o_fields r = Some fields.
Proof.
  intros Hnew Hspec Hext H. simpl in H. rewrite Hnew in H.
  unfold _build_object in H. simpl in H. rewrite Hspec, Hext in H.
  unfold bind at 1 in H.
  destruct (get_object sch fuel (Some base_name) s) as [[base|e|] s1] eqn:E1; try done.
  unfold bind, lift in H.
  destruct (clean_html (os_description spec)) as [description|e|] eqn:Ec; try done.
  unfold attributes_of in H.
  destruct (os_attributes spec) as [| |attributes] eqn:Ea; simpl in H; [done|done|].
  destruct (get_fields sch attributes s1) as [[fields|e|] s2] eqn:Ef; try done.
  unfold ret in H. injection H as <- <-.
  exists base, s1, description, attributes, fields, s2.
  by repeat split.
Qed.

Lemma build_object_shallow_override_witness :
  exists base r s1 s',
    get_object schema_BD 1 (Some "B") init_state = (Ok base, s1) /\
    dict_keys <$> o_fields base = Some ["a"; "b"] /\
    get_object schema_BD 2 (Some "D") init_state = (Ok r, s') /\
    dict_keys <$> o_fields r = Some ["c"] /\
    o_title r = Some "Base".
Proof.
  destruct (get_object schema_BD 2 (Some "D") init_state) as [r s'] eqn:E.
  assert (Hr : exists d, r = Ok d) by (vm_compute in E; injection E as <- _; eauto).
  destruct Hr as [d ->].
  destruct (build_object_shallow_override schema_BD 1 "D" "B"
              (mkObjectSpec None (Value "D") (Some "the derived") (Some "B") Missing
                   (Value [("c", plain_attr "third")])) init_state d s')
    as (base & s1 & description & attributes & fields & s2 &
        Hb & Hd & Ha & Hf & Hname & Htitle & Hdescr & Htype & Hfields);
    [by vm_compute | by vm_compute | done | done |].
  exists base, d, s1, s'.
  split; [done|].
  injection Ha as <-.
  vm_compute in Hb. injection Hb as <- <-.
  vm_compute in Hf. injection Hf as <- _.
  split; [done|]. split; [done|].
  rewrite Hfields, Htitle. done.
Defined.

(** C3: for a scalar type whose spec carries [min_len = v], the descriptor
    that [get_scalar_type] returns has [minLength] and [maxLength] both equal
    to [v]; and the descriptor that [_build_scalar_type] builds does not
    change when the [max_len] of the spec is replaced by any other value. *)
Theorem scalar_type_max_length_is_min_len sch types name spec v s :
  consistent sch s ->
  sch_types sch = Value types ->
  types !! name = Some spec ->
  ts_min_len spec = Some v ->
  (forall d s', get_scalar_type sch (Some name) s = (Ok d, s') ->
                d_minLength d = Some v /\ d_maxLength d = Some v) /\
  (forall m,
     _build_scalar_type
       (mkSchema (Value (<[name := with_max_len m spec]> types)) (sch_objects sch)
                 (sch_classes sch)) (Some name)
     = _build_scalar_type sch (Some name)).
Proof.
  intros [Ht _] Htypes Hspec Hmin. split.
  - intros d s' H.
    destruct (get_scalar_type_spec sch (Some name) s Ht) as (s1 & E & _).
    rewrite E in H. injection H as H _. simpl in H.
    unfold _build_scalar_type in H. rewrite Htypes in H. simpl in H.
    rewrite Hspec in H.
    destruct (clean_html (ts_description spec)); simpl in H; try done.
    destruct (index _ 0); simpl in H; try done.
    destruct (index _ 1); simpl in H; try done.
    injection H as <-. simpl. by rewrite Hmin.
  - intros m. unfold _build_scalar_type. simpl.
    rewrite Htypes. simpl. rewrite lookup_insert_eq, Hspec. done.
Qed.

Lemma scalar_type_max_length_is_min_len_witness :
  exists d s', get_scalar_type schema_port (Some "port_t") init_state = (Ok d, s') /\
               d_minLength d = Some 1 /\ d_maxLength d = Some 1.
Proof.
  destruct (get_scalar_type schema_port (Some "port_t") init_state) as [r s'] eqn:E.
  assert (Hr : exists d, r = Ok d) by (vm_compute in E; injection E as <- _; eauto).
  destruct Hr as [d ->]. exists d, s'. split; [done|].
  refine (proj1 (scalar_type_max_length_is_min_len schema_port _ "port_t"
            (mkTypeSpec (Some "integer_t") (Some "A port number") (Some 1) (Some 5) None
                   (Some [Some 0; Some 65535]) None) 1 init_state
            (consistent_init _) eq_refl _ eq_refl) d s' E).
  by vm_compute.
Defined.

Lemma eqb_include name : name <> "$include" -> String.eqb name "$include" = false.
Proof. intros H. by apply String.eqb_neq. Qed.

(** C4, as amended: for an attribute that is not deprecated and not named
    [$include], the tags of the translated field are: the group and
    [profile:<profile>] when [group] holds a non-empty string (the test
    [if group:] of the source), nothing otherwise, followed by the tag that
    [requirement] gives.  The profile tag depends on [group] only, never on
    [profile] being there. *)
Theorem profile_tag_gated_on_group sch name spec s kw s' :
  name <> "$include" ->
  truthy_bool (a_deprecated spec) = false ->
  _get_field_args sch name (AttrDict spec) s = (Ok kw, s') ->
  d_tags kw =
    Some (app (if truthy_str (a_group spec)
               then [str_of (a_group spec); "profile:" +:+ str_of (a_profile spec)]
               else [])
              (requirement_tags spec)).
Proof.
  intros Hname Hdep H. simpl in H. unfold bind, lift, raise, ret in H.
  destruct (clean_html (a_description spec)) as [description|e|]; try done.
  rewrite Hdep, (eqb_include _ Hname) in H.
  unfold requirement_tags.
  destruct (truthy_str (a_object_type spec)).
  - injection H as <- _.
    destruct (truthy_str (a_group spec)), (truthy_int (a_observable spec)),
      (truthy_bool (a_is_array spec)), (truthy_list (a_enum spec)),
      (bool_decide (a_requirement spec = Some REQUIRED)),
      (truthy_str (a_requirement spec)); reflexivity.
  - destruct (get_scalar_type sch (a_type spec) s) as [[base|e|] s1]; try done.
    injection H as <- _.
    destruct (truthy_str (a_group spec)), (truthy_int (a_observable spec)),
      (truthy_bool (a_is_array spec)), (truthy_list (a_enum spec)),
      (bool_decide (a_requirement spec = Some REQUIRED)),
      (truthy_str (a_requirement spec)); reflexivity.
Qed.

Lemma profile_tag_gated_on_group_witness :
  (exists kw s', _get_field_args schema_empty "uid" (AttrDict spec_group_only) init_state
                 = (Ok kw, s') /\ d_tags kw = Some ["primary"; "profile:None"]) /\
  (exists kw s', _get_field_args schema_empty "uid" (AttrDict spec_profile_only) init_state
                 = (Ok kw, s') /\ d_tags kw = Some []).
Proof.
  split.
  - destruct (_get_field_args schema_empty "uid" (AttrDict spec_group_only) init_state)
      as [r s'] eqn:E.
    assert (Hr : exists kw, r = Ok kw) by (vm_compute in E; injection E as <- _; eauto).
    destruct Hr as [kw ->]. exists kw, s'. split; [done|].
    rewrite (profile_tag_gated_on_group schema_empty "uid" spec_group_only init_state kw s');
      [reflexivity | discriminate | reflexivity | exact E].
  - destruct (_get_field_args schema_empty "uid" (AttrDict spec_profile_only) init_state)
      as [r s'] eqn:E.
    assert (Hr : exists kw, r = Ok kw) by (vm_compute in E; injection E as <- _; eauto).
    destruct Hr as [kw ->]. exists kw, s'. split; [done|].
    rewrite (profile_tag_gated_on_group schema_empty "uid" spec_profile_only init_state kw s');
      [reflexivity | discriminate | reflexivity | exact E].
Defined.

(** C4 as stated fails for a [group] that is present and empty *)
Lemma profile_tag_gated_on_group_counterexample :
  exists kw s',
    _get_field_args schema_empty "uid" (AttrDict spec_group_empty) init_state = (Ok kw, s') /\
    a_group spec_group_empty = Some "" /\
    d_tags kw = Some [].
Proof.
  exists (scaffold (Some "uid") "d"), init_state.
  split; [reflexivity|]. by split.
Qed.

(** C5, as amended: for an attribute that is not deprecated, not named
    [$include] and has [is_array = true], the field that the translator
    returns has type [array] and carries as [items] the base descriptor: the
    reference descriptor when [object_type] is set, else the descriptor of
    the scalar type.  With a description and [object_type = "foo"] the
    translator does return, and [items] is
    [{type: object, $ref: "#/definitions/foo"}]. *)
Theorem array_wraps_base_descriptor sch name spec s :
  name <> "$include" ->
  truthy_bool (a_deprecated spec) = false ->
  a_is_array spec = Some true ->
  (forall kw s',
     _get_field_args sch name (AttrDict spec) s = (Ok kw, s') ->
     d_type kw = Some "array" /\
     exists base,
       d_items kw = Some base /\
       if truthy_str (a_object_type spec) then base = ref_desc (a_object_type spec)
       else get_scalar_type sch (a_type spec) s = (Ok base, s')) /\
  (forall description,
     a_description spec = Some description ->
     a_object_type spec = Some "foo" ->
     exists kw items,
       _get_field_args sch name (AttrDict spec) s = (Ok kw, s) /\
       d_type kw = Some "array" /\
       d_items kw = Some items /\
       d_type items = Some "object" /\
       d_ref items = Some "#/definitions/foo" /\
       items = ref_desc (Some "foo")).
Proof.
  intros Hname Hdep Harr. split.
  - intros kw s' H. simpl in H. unfold bind, lift, raise, ret in H.
    destruct (clean_html (a_description spec)) as [description|e|]; try done.
    rewrite Hdep, (eqb_include _ Hname), Harr in H. simpl in H.
    destruct (truthy_str (a_object_type spec)).
    + injection H as <- _. split.
      * destruct (truthy_str (a_group spec)), (truthy_int (a_observable spec)),
          (truthy_list (a_enum spec)),
          (bool_decide (a_requirement spec = Some REQUIRED)),
          (truthy_str (a_requirement spec)); reflexivity.
      * eexists. split; [|reflexivity].
        destruct (truthy_str (a_group spec)), (truthy_int (a_observable spec)),
          (truthy_list (a_enum spec)),
          (bool_decide (a_requirement spec = Some REQUIRED)),
          (truthy_str (a_requirement spec)); reflexivity.
    + destruct (get_scalar_type sch (a_type spec) s) as [[base|e|] s1]; try done.
      injection H as <- <-. split.
      * destruct (truthy_str (a_group spec)), (truthy_int (a_observable spec)),
          (truthy_list (a_enum spec)),
          (bool_decide (a_requirement spec = Some REQUIRED)),
          (truthy_str (a_requirement spec)); reflexivity.
      * exists base. split; [|reflexivity].
        destruct (truthy_str (a_group spec)), (truthy_int (a_observable spec)),
          (truthy_list (a_enum spec)),
          (bool_decide (a_requirement spec = Some REQUIRED)),
          (truthy_str (a_requirement spec)); reflexivity.
  - intros description Hd Hobj. simpl. unfold bind, lift, raise, ret.
    rewrite Hd, Hdep, (eqb_include _ Hname), Harr, Hobj. simpl.
    eexists. exists (ref_desc (Some "foo")). split; [reflexivity|].
    repeat split;
      destruct (truthy_str (a_group spec)), (truthy_int (a_observable spec)),
        (truthy_list (a_enum spec)),
        (bool_decide (a_requirement spec = Some REQUIRED)),
        (truthy_str (a_requirement spec)); reflexivity.
Qed.

Lemma array_wraps_base_descriptor_witness :
  exists kw,
    _get_field_args schema_empty "things" (AttrDict spec_array_of_foo) init_state
      = (Ok kw, init_state) /\
    d_type kw = Some "array" /\
    d_items kw = Some (ref_desc (Some "foo")).
Proof.
  destruct (proj2 (array_wraps_base_descriptor schema_empty "things" spec_array_of_foo
                     init_state ltac:(discriminate) eq_refl eq_refl) "d" eq_refl eq_refl)
    as (kw & items & H & Ht & Hi & _ & _ & ->).
  by exists kw.
Defined.

(** C5 as stated fails for an attribute named [$include] *)
Lemma array_wraps_base_descriptor_counterexample :
  exists kw s',
    _get_field_args schema_empty "$include" (AttrDict spec_array_of_foo) init_state
      = (Ok kw, s') /\
    d_type kw = None /\ d_items kw = None.
Proof.
  exists (scaffold (Some "$include") "d"),
         (mkState (ocsf_types init_state) (ocsf_objects init_state) [WarnInclude "$include"]).
  split; [reflexivity|]. by split.
Qed.

(** C8, as amended: for an attribute that is not deprecated and not named
    [$include], an [observable] id other than 0 is carried to the
    translated field. *)
Theorem observable_carried_when_nonzero sch name spec v s kw s' :
  name <> "$include" ->
  truthy_bool (a_deprecated spec) = false ->
  a_observable spec = Some v ->
  v <> 0 ->
  _get_field_args sch name (AttrDict spec) s = (Ok kw, s') ->
  d_observable kw = Some v.
Proof.
  intros Hname Hdep Hobs Hv H. simpl in H. unfold bind, lift, raise, ret in H.
  destruct (clean_html (a_description spec)) as [description|e|]; try done.
  rewrite Hdep, (eqb_include _ Hname), Hobs in H. simpl in H.
  assert (Hz : (v =? 0) = false) by by apply Z.eqb_neq.
  rewrite Hz in H. simpl in H.
  destruct (truthy_str (a_object_type spec)).
  - injection H as <- _.
    destruct (truthy_str (a_group spec)), (truthy_bool (a_is_array spec)),
      (truthy_list (a_enum spec)),
      (bool_decide (a_requirement spec = Some REQUIRED)),
      (truthy_str (a_requirement spec)); reflexivity.
  - destruct (get_scalar_type sch (a_type spec) s) as [[base|e|] s1]; try done.
    injection H as <- _.
    destruct (truthy_str (a_group spec)), (truthy_bool (a_is_array spec)),
      (truthy_list (a_enum spec)),
      (bool_decide (a_requirement spec = Some REQUIRED)),
      (truthy_str (a_requirement spec)); reflexivity.
Qed.

Lemma observable_carried_when_nonzero_witness :
  exists kw s',
    _get_field_args schema_empty "ip" (AttrDict (spec_observable 2)) init_state = (Ok kw, s') /\
    d_observable kw = Some 2.
Proof.
  destruct (_get_field_args schema_empty "ip" (AttrDict (spec_observable 2)) init_state)
    as [r s'] eqn:E.
  assert (Hr : exists kw, r = Ok kw) by (vm_compute in E; injection E as <- _; eauto).
  destruct Hr as [kw ->]. exists kw, s'. split; [done|].
  apply (observable_carried_when_nonzero schema_empty "ip" (spec_observable 2) 2
           init_state kw s'); [discriminate | reflexivity | reflexivity | lia | exact E].
Defined.

(** C8 as stated fails for the observable id 0 *)
Lemma observable_carried_counterexample :
  exists kw s',
    _get_field_args schema_empty "ip" (AttrDict (spec_observable 0)) init_state = (Ok kw, s') /\
    a_observable (spec_observable 0) = Some 0 /\
    d_observable kw = None.
Proof.
  exists (scaffold (Some "ip") "d"), init_state.
  split; [reflexivity|]. by split.
Qed.

Lemma _build_scalar_type_no_fuel sch name : _build_scalar_type sch name <> OutOfFuel.
Proof.
  unfold _build_scalar_type.
  destruct (sch_types sch) as [| |types]; [done|done|].
  destruct (name ≫= _) as [spec|]; [|done].
  destruct (clean_html (ts_description spec)) eqn:Ec; simpl; try done.
  - destruct (index _ 0) eqn:E0; simpl; try done.
    + destruct (index _ 1) eqn:E1; simpl; try done.
      unfold index in E1. by destruct (nth_error _ _).
    + unfold index in E0. by destruct (nth_error _ _).
  - unfold clean_html in Ec. by destruct (ts_description spec).
Qed.

Lemma _get_field_args_no_fuel sch name spec s :
  (_get_field_args sch name spec s).1 <> OutOfFuel.
Proof.
  destruct spec as [spec|paths]; simpl; [|done].
  unfold bind, lift, raise, ret.
  destruct (a_description spec) as [description|]; simpl; [|done].
  destruct (truthy_bool (a_deprecated spec)); [done|].
  destruct (String.eqb name "$include"); [done|].
  destruct (truthy_str (a_object_type spec)); [done|].
  unfold get_scalar_type.
  destruct (ocsf_types s !! a_type spec); [done|].
  pose proof (_build_scalar_type_no_fuel sch (a_type spec)).
  by destruct (_build_scalar_type sch (a_type spec)).
Qed.

Lemma get_fields_from_no_fuel sch attributes : forall fields s,
  (get_fields_from sch attributes fields s).1 <> OutOfFuel.
Proof.
  induction attributes as [|[name spec] rest IH]; intros fields s; simpl; [done|].
  pose proof (_get_field_args_no_fuel sch name spec s) as Hn.
  destruct (_get_field_args sch name spec s) as [[kwargs|e|] s1]; simpl in *.
  - apply IH.
  - destruct e; try done. unfold bind, log_warning. apply IH.
  - done.
Qed.

Lemma _get_field_args_no_description sch name spec s :
  a_description spec = None ->
  _get_field_args sch name (AttrDict spec) s = (Raise TypeError, s).
Proof. intros H. simpl. unfold bind, lift. by rewrite H. Qed.

Lemma get_fields_from_no_description sch attributes name spec :
  In (name, AttrDict spec) attributes ->
  a_description spec = None ->
  forall fields s,
    exists e s', get_fields_from sch attributes fields s = (Raise e, s') /\
                 e <> DeprecatedField.
Proof.
  intros Hin Hd.
  induction attributes as [|[name' spec'] rest IH]; intros fields s; [done|].
  simpl.
  destruct Hin as [[= -> ->]|Hin].
  { rewrite (_get_field_args_no_description _ _ _ _ Hd). by exists TypeError, s. }
  pose proof (_get_field_args_no_fuel sch name' spec' s) as Hn.
  destruct (_get_field_args sch name' spec' s) as [[kwargs|e|] s1]; simpl in Hn.
  - by apply IH.
  - destruct e; try (eexists _, _; split; [reflexivity | done]).
    unfold bind, log_warning. by apply IH.
  - done.
Qed.

Lemma import_models_no_description sch input_models name spec :
  In (name, spec) input_models ->
  lacks_description spec ->
  forall models s, exists e s', import_models sch input_models models s = (Raise e, s').
Proof.
  intros Hin Hbad.
  induction input_models as [|[name' spec'] rest IH]; intros models s; [done|].
  simpl. unfold bind at 1, lift.
  unfold attributes_of.
  destruct (os_attributes spec') as [| |attributes] eqn:Ea; simpl; [eauto|eauto|].
  unfold bind at 1.
  pose proof (get_fields_from_no_fuel sch attributes [] s) as Hn.
  unfold get_fields.
  destruct Hin as [[= -> ->]|Hin].
  - destruct Hbad as [Hd|(attributes' & n & a & Ha & Hina & Hd)].
    + destruct (get_fields_from sch attributes [] s) as [[fields|e|] s1]; simpl in Hn.
      * unfold bind, lift. rewrite Hd. simpl. eauto.
      * eauto.
      * done.
    + replace attributes' with attributes in * by congruence.
      destruct (get_fields_from_no_description sch attributes n a Hina Hd [] s)
        as (e & s' & -> & _). eauto.
  - destruct (get_fields_from sch attributes [] s) as [[fields|e|] s1]; simpl in Hn.
    + unfold bind at 1, lift.
      unfold clean_html. destruct (os_description spec'); simpl; [by apply IH | eauto].
    + eauto.
    + done.
Qed.

(** C10: an attribute spec without a description makes [_get_field_args]
    raise [TypeError], deprecated or not, with the state unchanged;
    [get_fields] on attributes that contain one raises an exception that is
    not the deprecated signal; [import_ocsfschema] without a class filter
    raises when a class has no description or has such an attribute; and the
    first resolution of an object without a description raises [TypeError]
    once its base has been resolved. *)
Theorem missing_description_aborts_import :
  (forall sch name spec s,
     a_description spec = None ->
     _get_field_args sch name (AttrDict spec) s = (Raise TypeError, s)) /\
  (forall sch attributes name spec s,
     In (name, AttrDict spec) attributes ->
     a_description spec = None ->
     exists e s', get_fields sch attributes s = (Raise e, s') /\ e <> DeprecatedField) /\
  (forall ofuel fuel contract sch classes name spec s,
     sch_classes sch = Value classes ->
     In (name, spec) classes ->
     lacks_description spec ->
     exists e s', import_ocsfschema ofuel fuel contract sch None s = (Raise e, s')) /\
  (forall sch fuel name spec s base s1,
     ocsf_objects s !! Some name = None ->
     sch_objects sch !! name = Some spec ->
     os_description spec = None ->
     get_object sch fuel (os_extends spec) s = (Ok base, s1) ->
     get_object sch (S fuel) (Some name) s = (Raise TypeError, s1)).
Proof.
  repeat split.
  - intros. by apply _get_field_args_no_description.
  - intros sch attributes name spec s Hin Hd.
    by apply (get_fields_from_no_description sch attributes name spec).
  - intros ofuel fuel contract sch classes name spec s Hc Hin Hbad.
    unfold import_ocsfschema. unfold bind at 1, lift, classes_of. rewrite Hc. simpl.
    unfold bind at 1. simpl.
    destruct (import_models_no_description sch classes name spec Hin Hbad
                (default [] (models contract)) s) as (e & s' & E).
    unfold bind. rewrite E. eauto.
  - intros sch fuel name spec s base s1 Hnew Hspec Hd Hbase.
    simpl. rewrite Hnew. unfold _build_object. simpl. rewrite Hspec.
    unfold bind at 1. rewrite Hbase. unfold bind, lift. by rewrite Hd.
Qed.

Lemma chain_obj_empty_r d : chain_obj d empty_obj = d.
Proof. destruct d as [[?|] [?|] [?|] [?|] [?|]]; reflexivity. Qed.

Lemma chain_obj_empty_l d : chain_obj empty_obj d = d.
Proof. by destruct d. Qed.

Lemma get_fields_from_app sch before after : forall fields s,
  get_fields_from sch (before ++ after)%list fields s =
  (let! fields1 := get_fields_from sch before fields in
   get_fields_from sch after fields1) s.
Proof.
  induction before as [|[name spec] rest IH]; intros fields s; simpl.
  { reflexivity. }
  unfold bind.
  destruct (_get_field_args sch name spec s) as [[kwargs|e|] s1]; simpl.
  - rewrite IH. reflexivity.
  - destruct e; try reflexivity.
    unfold log_warning. rewrite IH. reflexivity.
  - reflexivity.
Qed.

Lemma dict_get_set {V : Type} k k' (v : V) d :
  dict_get k (dict_set k' v d) = if String.eqb k k' then Some v else dict_get k d.
Proof.
  induction d as [|[k0 v0] r IH]; simpl.
  { reflexivity. }
  destruct (String.eqb k' k0) eqn:E0; simpl.
  - apply String.eqb_eq in E0 as ->.
    destruct (String.eqb k k0); reflexivity.
  - rewrite IH. destruct (String.eqb k k0) eqn:E1; [|reflexivity].
    apply String.eqb_eq in E1 as ->.
    destruct (String.eqb k0 k') eqn:E2; [|reflexivity].
    apply String.eqb_eq in E2 as ->. rewrite String.eqb_refl in E0. discriminate.
Qed.

Lemma get_fields_from_keys sch attributes : forall fields s r s' k,
  get_fields_from sch attributes fields s = (Ok r, s') ->
  dict_get k r <> None ->
  In k (dict_keys attributes) \/ dict_get k fields <> None.
Proof.
  induction attributes as [|[name spec] rest IH]; intros fields s r s' k H Hk; simpl in *.
  { injection H as <- _. by right. }
  destruct (_get_field_args sch name spec s) as [[kwargs|e|] s1]; try done.
  - destruct (IH _ _ _ _ _ H Hk) as [Hin|Hget]; [by left; right|].
    rewrite dict_get_set in Hget.
    destruct (String.eqb k name) eqn:E; [|by right].
    apply String.eqb_eq in E. left. by left.
  - destruct e; try done. unfold bind, log_warning in H.
    destruct (IH _ _ _ _ _ H Hk) as [Hin|Hget]; [by left; right | by right].
Qed.

Lemma _get_field_args_warnings sch name spec s r s' :
  _get_field_args sch name spec s = (r, s') ->
  exists w, warnings s' = app (warnings s) w /\ forall n, ~ In (WarnDeprecated n) w.
Proof.
  intros H. destruct spec as [spec|paths]; simpl in H.
  2:{ injection H as _ <-. exists []. split; [by rewrite app_nil_r | by intros n []]. }
  unfold bind, lift, raise, ret in H.
  assert (Hsame : forall r0, (r0, s) = (r, s') ->
            exists w, warnings s' = app (warnings s) w /\ forall n, ~ In (WarnDeprecated n) w).
  { intros r0 [= _ <-]. exists []. split; [by rewrite app_nil_r | by intros n []]. }
  destruct (clean_html (a_description spec)); simpl in H; eauto.
  destruct (truthy_bool (a_deprecated spec)); eauto.
  destruct (String.eqb name "$include").
  { injection H as _ <-. simpl. exists [WarnInclude name]. split; [done|].
    intros n [Hn|[]]. discriminate. }
  destruct (truthy_str (a_object_type spec)); eauto.
  unfold get_scalar_type in H.
  destruct (ocsf_types s !! a_type spec); eauto.
  destruct (_build_scalar_type sch (a_type spec)); eauto.
  injection H as _ <-. simpl. exists []. split; [by rewrite app_nil_r | by intros n []].
Qed.

Lemma get_fields_from_warnings sch attributes : forall fields s r s',
  get_fields_from sch attributes fields s = (r, s') ->
  exists w, warnings s' = app (warnings s) w /\
            forall n, In (WarnDeprecated n) w -> In n (dict_keys attributes).
Proof.
  induction attributes as [|[name spec] rest IH]; intros fields s r s' H; simpl in H.
  { injection H as _ <-. exists []. split; [by rewrite app_nil_r | by intros n []]. }
  destruct (_get_field_args sch name spec s) as [r1 s1] eqn:E1.
  destruct (_get_field_args_warnings _ _ _ _ _ _ E1) as (w1 & Hw1 & Hn1).
  assert (Hstop : forall r0, (r0, s1) = (r, s') ->
            exists w, warnings s' = app (warnings s) w /\
                      forall n, In (WarnDeprecated n) w -> In n (dict_keys ((name, spec) :: rest))).
  { intros r0 [= _ <-]. exists w1. split; [done|]. intros n Hn. by apply Hn1 in Hn. }
  destruct r1 as [kwargs|e|]; eauto.
  - destruct (IH _ _ _ _ H) as (w2 & Hw2 & Hn2).
    exists (app w1 w2). split; [by rewrite Hw2, Hw1, app_assoc|].
    intros n [Hn|Hn]%in_app_iff; [by apply Hn1 in Hn | right; by apply Hn2].
  - destruct e; eauto.
    unfold bind, log_warning in H.
    destruct (IH _ _ _ _ H) as (w2 & Hw2 & Hn2). simpl in Hw2.
    exists (app w1 (WarnDeprecated name :: w2)). split.
    + rewrite Hw2, Hw1. by rewrite <- !app_assoc.
    + intros n [Hn|[Hn|Hn]]%in_app_iff.
      * by apply Hn1 in Hn.
      * left. simpl. congruence.
      * right. by apply Hn2.
Qed.

(** C6, as amended: a deprecated attribute that has a description is
    skipped: [get_fields] on [before ++ (name, spec) :: after] is
    [get_fields] on [before], one warning for [name], then [get_fields] on
    [after] with the fields built so far.  When no other attribute is called
    [name], the resulting fields have no entry for [name] and the log has
    gained exactly one warning for it. *)
Theorem deprecated_attribute_skipped sch before name spec description after :
  a_deprecated spec = Some true ->
  a_description spec = Some description ->
  (forall fields s,
     get_fields_from sch (before ++ (name, AttrDict spec) :: after)%list fields s =
     (let! fields1 := get_fields_from sch before fields in
      run! log_warning (WarnDeprecated name) in
      get_fields_from sch after fields1) s) /\
  (forall s fields s',
     get_fields sch (before ++ (name, AttrDict spec) :: after)%list s = (Ok fields, s') ->
     ~ In name (dict_keys before) ->
     ~ In name (dict_keys after) ->
     dict_get name fields = None /\
     exists w1 w2,
       warnings s' = (warnings s ++ w1 ++ [WarnDeprecated name] ++ w2)%list /\
       ~ In (WarnDeprecated name) w1 /\ ~ In (WarnDeprecated name) w2).
Proof.
  intros Hdep Hd.
  assert (Heq : forall fields s,
     get_fields_from sch (before ++ (name, AttrDict spec) :: after)%list fields s =
     (let! fields1 := get_fields_from sch before fields in
      run! log_warning (WarnDeprecated name) in
      get_fields_from sch after fields1) s).
  { intros fields s. rewrite get_fields_from_app. unfold bind at 1 2.
    destruct (get_fields_from sch before fields s) as [[fields1|e|] s1]; try reflexivity.
    simpl. unfold bind at 1, lift. rewrite Hd, Hdep. simpl. reflexivity. }
  split; [exact Heq|].
  intros s fields s' H Hb Ha. unfold get_fields in H. rewrite Heq in H.
  unfold bind at 1 in H.
  destruct (get_fields_from sch before [] s) as [[fields1|e|] s1] eqn:E1; try done.
  unfold bind, log_warning in H.
  set (s1' := mkState _ _ _) in H.
  split.
  - destruct (dict_get name fields) eqn:Eg; [|done]. exfalso.
    destruct (get_fields_from_keys _ _ _ _ _ _ name H) as [Hin|Hget]; [congruence|done|].
    destruct (get_fields_from_keys _ _ _ _ _ _ name E1 Hget) as [Hin|Hget']; done.
  - destruct (get_fields_from_warnings _ _ _ _ _ _ E1) as (w1 & Hw1 & Hn1).
    destruct (get_fields_from_warnings _ _ _ _ _ _ H) as (w2 & Hw2 & Hn2).
    exists w1, w2. split; [|split].
    + rewrite Hw2. simpl. rewrite Hw1. by rewrite <- !app_assoc.
    + intros Hin. by apply Hn1 in Hin.
    + intros Hin. by apply Hn2 in Hin.
Qed.

Lemma deprecated_attribute_skipped_witness :
  exists fields s',
    get_fields schema_empty attributes_with_deprecated init_state = (Ok fields, s') /\
    dict_keys fields = ["a"; "b"] /\
    dict_get "old" fields = None /\
    warnings s' = [WarnDeprecated "old"].
Proof.
  destruct (get_fields schema_empty attributes_with_deprecated init_state) as [r s'] eqn:E.
  assert (Hr : exists f, r = Ok f /\ dict_keys f = ["a"; "b"] /\
                          warnings s' = [WarnDeprecated "old"]).
  { vm_compute in E. injection E as <- <-. eexists. by repeat split. }
  destruct Hr as (f & -> & Hk & Hw).
  exists f, s'. split; [reflexivity|]. split; [exact Hk|]. split; [|exact Hw].
  apply (proj2 (deprecated_attribute_skipped schema_empty [("a", plain_attr "first")] "old"
                  spec_deprecated "no longer used" [("b", plain_attr "second")]
                  eq_refl eq_refl) init_state _ s' E).
  - simpl. intros [H|[]]. discriminate.
  - simpl. intros [H|[]]. discriminate.
Defined.

(** C6 as stated fails for a deprecated attribute without a description *)
Lemma deprecated_attribute_skipped_counterexample :
  a_deprecated spec_deprecated_bare = Some true /\
  (get_fields schema_deprecated_bare
     [("user", plain_attr "who"); ("old", AttrDict spec_deprecated_bare)] init_state).1
    = Raise TypeError /\
  (import_ocsfschema 1 1 (mkContract None None) schema_deprecated_bare None init_state).1
    = Raise TypeError.
Proof. repeat split; by vm_compute. Qed.

(** C9, as amended: with a description on the class [login] and on its
    attribute [user], and the base object [object] in the document, the
    import without a class filter returns a contract with the single model
    [login], whose single field [user] has type [object] and [$ref]
    [#/definitions/_entity], and whose definitions hold exactly [_entity],
    with the fields [name] and [uid]. *)
Theorem import_login_end_to_end (class_description attribute_description : string) :
  exists contract model field defs entity entity_fields,
    import_source 2 2 (mkContract None None)
      (login_document (Some class_description) (Some attribute_description)) None
      = Ok contract /\
    models contract = Some [("login", model)] /\
    m_fields model = [("user", field)] /\
    d_type (field_kwargs field) = Some "object" /\
    ref field = Some "#/definitions/_entity" /\
    definitions contract = Some defs /\
    dom defs = {[ "_entity" ]} /\
    defs !! "_entity" = Some entity /\
    o_fields entity = Some entity_fields /\
    dict_keys entity_fields = ["name"; "uid"].
Proof.
  set (r := import_source _ _ _ _ _). vm_compute in r.
  match goal with r := Ok ?c |- _ =>
    match c with
    | {| models := Some [(_, ?m)]; definitions := Some ?d |} =>
        exists c, m;
        match m with {| m_fields := [(_, ?f)] |} => exists f end
    end
  end.
  eexists _, _, _. subst r.
  split; [reflexivity|]. split; [reflexivity|]. split; [reflexivity|].
  split; [reflexivity|]. split; [reflexivity|]. split; [reflexivity|].
  split; [by vm_compute|]. split; [by vm_compute|]. split; reflexivity.
Qed.

(** C9 as stated: the document of the specification has no descriptions *)
Lemma import_login_counterexample :
  import_source 2 2 (mkContract None None) (login_document None None) None
    = Raise TypeError.
Proof. by vm_compute. Qed.










(** ** Further properties of the importer *)

Lemma prefix_split p : forall s, String.prefix p s = true -> exists t, s = p +:+ t.
Proof.
  induction p as [|a p IH]; intros s H; simpl in *.
  - by exists s.
  - destruct s as [|b s]; [done|]. simpl in H.
    destruct (ascii_dec a b) as [->|]; [|done].
    destruct (IH _ H) as [t ->]. by exists t.
Qed.

Lemma strip_tags_no_tag s : has_tag s = false -> strip_tags_from 0 s = s.
Proof.
  induction s as [|c r IH]; simpl; [done|].
  intros [H1 H2]%orb_false_elim. rewrite (IH H2).
  destruct (Ascii.eqb c lt_char); [|done].
  simpl in H1. by destruct (index_gt r) as [[|k]|].
Qed.

Lemma sub_code_no_tag s : has_tag s = false -> sub_code_from 0 s = s.
Proof.
  induction s as [|c r IH]; [done|].
  intros H. pose proof H as H'. simpl in H'.
  apply orb_false_elim in H' as [H1 H2].
  change (sub_code_from 0 (String c r)) with
    (if String.prefix "<code>" (String c r) then String "`"%char (sub_code_from 5 r)
     else if String.prefix "</code>" (String c r) then String "`"%char (sub_code_from 6 r)
     else String c (sub_code_from 0 r)).
  destruct (String.prefix "<code>" (String c r)) eqn:P1.
  { apply prefix_split in P1 as [t P1]. simpl in P1. injection P1 as -> ->.
    simpl in H1. done. }
  destruct (String.prefix "</code>" (String c r)) eqn:P2.
  { apply prefix_split in P2 as [t P2]. simpl in P2. injection P2 as -> ->.
    simpl in H1. done. }
  by rewrite (IH H2).
Qed.

Lemma index_gt_strip_None r : index_gt r = None ->
  forall skip, index_gt (strip_tags_from skip r) = None.
Proof.
  induction r as [|c r IH]; intros H skip; simpl; [done|].
  simpl in H. destruct (Ascii.eqb c gt_char) eqn:Ec; [done|].
  destruct (index_gt r) as [k|] eqn:Er; [done|].
  destruct skip as [|skip]; [|by apply IH].
  destruct (Ascii.eqb c lt_char); simpl; rewrite Ec; by rewrite (IH eq_refl).
Qed.

Lemma strip_tags_has_no_tag s : forall skip, has_tag (strip_tags_from skip s) = false.
Proof.
  induction s as [|c r IH]; intros skip; simpl; [done|].
  destruct skip as [|skip]; [|apply IH].
  destruct (Ascii.eqb c lt_char) eqn:Ec.
  - destruct (index_gt r) as [[|k]|] eqn:Er.
    + simpl. rewrite Ec, IH. simpl.
      destruct r as [|c' r']; [done|]. simpl in Er.
      destruct (Ascii.eqb c' gt_char) eqn:Ec'.
      * simpl. assert (Ascii.eqb c' lt_char = false) as ->.
        { apply Ascii.eqb_eq in Ec' as ->. done. }
        simpl. by rewrite Ec'.
      * by destruct (index_gt r').
    + apply IH.
    + simpl. rewrite Ec, IH. simpl. by rewrite (index_gt_strip_None _ Er).
  - simpl. by rewrite Ec, IH.
Qed.

Lemma has_lt_no_tag s : has_lt s = false -> has_tag s = false.
Proof.
  induction s as [|c r IH]; simpl; [done|].
  intros [-> H2]%orb_false_elim. by rewrite (IH H2).
Qed.

Lemma sub_code_app_plain a : has_lt a = false ->
  forall s, sub_code_from 0 (a +:+ s) = a +:+ sub_code_from 0 s.
Proof.
  induction a as [|c a IH]; intros H s; [done|].
  simpl in H. apply orb_false_elim in H as [H1 H2].
  change (String c a +:+ s) with (String c (a +:+ s)).
  change (sub_code_from 0 (String c (a +:+ s))) with
    (if String.prefix "<code>" (String c (a +:+ s))
     then String "`"%char (sub_code_from 5 (a +:+ s))
     else if String.prefix "</code>" (String c (a +:+ s))
     then String "`"%char (sub_code_from 6 (a +:+ s))
     else String c (sub_code_from 0 (a +:+ s))).
  assert (Hc : c <> lt_char).
  { intros ->. done. }
  assert (P : forall p, String.prefix (String lt_char p) (String c (a +:+ s)) = false).
  { intros p.
    change (String.prefix (String lt_char p) (String c (a +:+ s))) with
      (match ascii_dec lt_char c with
       | left _ => String.prefix p (a +:+ s)
       | right _ => false
       end).
    destruct (ascii_dec lt_char c); [congruence | done]. }
  change "<code>" with (String lt_char "code>").
  change "</code>" with (String lt_char "/code>").
  rewrite !P. rewrite (IH H2). done.
Qed.

Lemma prefix_app p : forall t, String.prefix p (p +:+ t) = true.
Proof.
  induction p as [|c p IH]; intros t; simpl.
  - by destruct t.
  - destruct (ascii_dec c c); [apply IH | done].
Qed.

Lemma sub_code_open x :
  sub_code_from 0 ("<code>" +:+ x) = String "`"%char (sub_code_from 0 x).
Proof.
  change (sub_code_from 0 ("<code>" +:+ x)) with
    (if String.prefix "<code>" ("<code>" +:+ x)
     then String "`"%char (sub_code_from 0 x)
     else if String.prefix "</code>" ("<code>" +:+ x)
     then String "`"%char (sub_code_from 6 ("code>" +:+ x))
     else String "<"%char (sub_code_from 0 ("code>" +:+ x))).
  by rewrite prefix_app.
Qed.

Lemma sub_code_close x :
  sub_code_from 0 ("</code>" +:+ x) = String "`"%char (sub_code_from 0 x).
Proof.
  change (sub_code_from 0 ("</code>" +:+ x)) with
    (if String.prefix "</code>" ("</code>" +:+ x)
     then String "`"%char (sub_code_from 0 x)
     else String "<"%char (sub_code_from 0 ("/code>" +:+ x))).
  by rewrite prefix_app.
Qed.

Lemma has_lt_app a b : has_lt (a +:+ b) = has_lt a || has_lt b.
Proof.
  induction a as [|c a IH]; simpl; [done|]. rewrite IH. by rewrite orb_assoc.
Qed.

(** X1: a description in which the tag expression [<[^>]+>] matches
    nowhere is returned unchanged by [clean_html]. *)
Theorem clean_html_without_tag h :
  has_tag h = false -> clean_html (Some h) = Ok h.
Proof.
  intros H. unfold clean_html. by rewrite (sub_code_no_tag _ H), (strip_tags_no_tag _ H).
Qed.

Lemma clean_html_without_tag_witness :
  has_tag "1 <> 2, x <" = false /\ clean_html (Some "1 <> 2, x <") = Ok "1 <> 2, x <".
Proof.
  split; [reflexivity|]. apply clean_html_without_tag. reflexivity.
Defined.

(** X2: the text that [clean_html] returns holds no tag any more, and
    cleaning it a second time changes nothing. *)
Theorem clean_html_idempotent h :
  exists h', clean_html (Some h) = Ok h' /\ has_tag h' = false /\
             clean_html (Some h') = Ok h'.
Proof.
  eexists. split; [reflexivity|].
  assert (H : has_tag (strip_tags_from 0 (sub_code_from 0 h)) = false)
    by apply strip_tags_has_no_tag.
  split; [done|].
  unfold clean_html. by rewrite (sub_code_no_tag _ H), (strip_tags_no_tag _ H).
Qed.

(** X3: inline code markup becomes a pair of backquotes: around texts
    without [<], [<code>x</code>] is turned into [`x`]. *)
Theorem clean_html_code_to_backquotes a x b :
  has_lt a = false -> has_lt x = false -> has_lt b = false ->
  clean_html (Some (a +:+ "<code>" +:+ x +:+ "</code>" +:+ b)) =
  Ok (a +:+ "`" +:+ x +:+ "`" +:+ b).
Proof.
  intros Ha Hx Hb. unfold clean_html. f_equal.
  rewrite (sub_code_app_plain _ Ha).
  rewrite sub_code_open, (sub_code_app_plain _ Hx), sub_code_close.
  rewrite (sub_code_no_tag b) by by apply has_lt_no_tag.
  apply strip_tags_no_tag, has_lt_no_tag.
  rewrite !has_lt_app, Ha, Hx, Hb. done.
Qed.

Lemma clean_html_code_to_backquotes_witness :
  clean_html (Some "For example: <code>IN</code>.") = Ok "For example: `IN`.".
Proof.
  apply (clean_html_code_to_backquotes "For example: " "IN" "."); reflexivity.
Defined.

Lemma types_consistent_uncached sch s t :
  types_consistent sch s -> (forall d, _build_scalar_type sch (Some t) <> Ok d) ->
  ocsf_types s !! Some t = None.
Proof.
  intros [_ Hn] Hb. destruct (ocsf_types s !! Some t) as [d|] eqn:E; [|done].
  by destruct (Hb d (Hn _ _ E)).
Qed.

Lemma scalar_type_of_shape sch n ty :
  scalar_type_of sch n = Ok ty ->
  d_title ty = None /\ d_tags ty = None /\ d_observable ty = None /\ d_ref ty = None /\
  d_items ty = None /\ d_enum ty = None /\ d_required ty = None.
Proof.
  destruct n as [n|]; simpl.
  2:{ by intros [= <-]. }
  unfold _build_scalar_type.
  destruct (sch_types sch) as [| |types]; [done|done|]. simpl.
  destruct (types !! n) as [spec|]; [|done].
  destruct (clean_html (ts_description spec)); simpl; try done.
  destruct (index _ 0); simpl; try done.
  destruct (index _ 1); simpl; try done.
  by intros [= <-].
Qed.

Lemma field_args_of_dict sch name spec s r s' :
  types_consistent sch s ->
  _get_field_args sch name (AttrDict spec) s = (r, s') ->
  field_args_of sch name (AttrDict spec) = r.
Proof.
  intros Hs H. destruct (_get_field_args_spec sch name (AttrDict spec) s Hs) as (s1 & E & _).
  congruence.
Qed.

(** X4: a scalar type whose [range] has a single element cannot be
    built: [range_[1]] raises [IndexError], and nothing is memoised. *)
Theorem short_range_raises_index_error sch types t spec x dsc s :
  types_consistent sch s ->
  sch_types sch = Value types -> types !! t = Some spec ->
  ts_description spec = Some dsc -> ts_range spec = Some [x] ->
  get_scalar_type sch (Some t) s = (Raise IndexError, s).
Proof.
  intros Hs Ht Hspec Hd Hr.
  assert (B : _build_scalar_type sch (Some t) = Raise IndexError).
  { unfold _build_scalar_type. rewrite Ht. simpl. rewrite Hspec, Hd, Hr. done. }
  unfold get_scalar_type.
  rewrite (types_consistent_uncached sch s t Hs) by (rewrite B; done).
  by rewrite B.
Qed.

Lemma short_range_raises_index_error_witness :
  get_scalar_type schema_short_range (Some "port_t") init_state = (Raise IndexError, init_state).
Proof.
  apply (short_range_raises_index_error schema_short_range
           {[ "port_t" := mkTypeSpec (Some "integer_t") (Some "A port number") None None None
                            (Some [Some 0]) None ]}
           "port_t"
           (mkTypeSpec (Some "integer_t") (Some "A port number") None None None
              (Some [Some 0]) None)
           (Some 0) "A port number" init_state);
    [apply consistent_init | reflexivity | reflexivity | reflexivity | reflexivity].
Defined.

(** X5: an attribute whose [type] is not in the [types] section of the
    document is not translated: the lookup raises [KeyError] with the
    name of the type. *)
Theorem unknown_scalar_type_raises sch types name spec t dsc s :
  types_consistent sch s ->
  sch_types sch = Value types -> types !! t = None ->
  name <> "$include" ->
  a_description spec = Some dsc -> truthy_bool (a_deprecated spec) = false ->
  truthy_str (a_object_type spec) = false -> a_type spec = Some t ->
  _get_field_args sch name (AttrDict spec) s = (Raise (KeyError (Some t)), s).
Proof.
  intros Hs Ht Hmiss Hname Hd Hdep Hobj Hty.
  assert (B : _build_scalar_type sch (Some t) = Raise (KeyError (Some t))).
  { unfold _build_scalar_type. rewrite Ht. simpl. by rewrite Hmiss. }
  simpl. unfold bind, lift. rewrite Hd. simpl. rewrite Hdep, (eqb_include _ Hname), Hobj, Hty.
  unfold get_scalar_type.
  rewrite (types_consistent_uncached sch s t Hs) by (rewrite B; done).
  by rewrite B.
Qed.

Lemma unknown_scalar_type_raises_witness :
  _get_field_args schema_port "host" (AttrDict (spec_typed "hostname_t")) init_state =
  (Raise (KeyError (Some "hostname_t")), init_state).
Proof.
  apply (unknown_scalar_type_raises schema_port
           {[ "port_t" := mkTypeSpec (Some "integer_t") (Some "A port number") (Some 1) (Some 5)
                            None (Some [Some 0; Some 65535]) None ]}
           "host" (spec_typed "hostname_t") "hostname_t" "d" init_state);
    [apply consistent_init | reflexivity | reflexivity | discriminate
    | reflexivity | reflexivity | reflexivity | reflexivity].
Defined.

(** X6: an attribute with neither [object_type] nor [type] is translated
    all the same, through the sentinel entry of the table of types: the
    field has no type of its own (it is an array of untyped items when
    [is_array] holds) and the tables are left as they were. *)
Theorem untyped_attribute_translated sch name spec dsc s :
  types_consistent sch s ->
  name <> "$include" ->
  a_description spec = Some dsc -> truthy_bool (a_deprecated spec) = false ->
  truthy_str (a_object_type spec) = false -> a_type spec = None ->
  exists kw,
    _get_field_args sch name (AttrDict spec) s = (Ok kw, s) /\
    d_type kw = (if truthy_bool (a_is_array spec) then Some "array" else None) /\
    d_items kw = (if truthy_bool (a_is_array spec) then Some empty_desc else None) /\
    d_ref kw = None /\ d_pii kw = None.
Proof.
  intros [H0 _] Hname Hd Hdep Hobj Hty.
  simpl. unfold bind, lift. rewrite Hd. simpl. rewrite Hdep, (eqb_include _ Hname), Hobj, Hty.
  unfold get_scalar_type. rewrite H0. unfold ret.
  eexists. split; [reflexivity|].
  destruct (truthy_bool (a_is_array spec)), (truthy_list (a_enum spec)),
    (bool_decide (a_requirement spec = Some REQUIRED)), (truthy_str (a_requirement spec)),
    (truthy_str (a_group spec)), (truthy_int (a_observable spec)); done.
Qed.

Lemma untyped_attribute_translated_witness :
  exists kw,
    _get_field_args schema_empty "data" (AttrDict spec_untyped_array) init_state
    = (Ok kw, init_state) /\
    d_type kw = Some "array" /\ d_items kw = Some empty_desc.
Proof.
  destruct (untyped_attribute_translated schema_empty "data" spec_untyped_array "d" init_state)
    as (kw & E & Ht & Hi & _);
    [apply consistent_init | discriminate | reflexivity | reflexivity | reflexivity
    | reflexivity |].
  exists kw. split; [exact E|]. split; [exact Ht | exact Hi].
Defined.

(** X7: a scalar attribute that is not an array takes the type, the
    length and range limits, the observable id and the PII flag of its
    scalar type, and keeps its own title and description: the keys of the
    attribute come first in the chain. *)
Theorem scalar_field_inherits_constraints sch name spec t s kw s' :
  types_consistent sch s ->
  name <> "$include" ->
  truthy_str (a_object_type spec) = false ->
  truthy_bool (a_is_array spec) = false ->
  a_type spec = Some t ->
  _get_field_args sch name (AttrDict spec) s = (Ok kw, s') ->
  exists ty description,
    _build_scalar_type sch (Some t) = Ok ty /\
    clean_html (a_description spec) = Ok description /\
    d_description kw = Some description /\
    d_title kw = (if truthy_str (a_caption spec) then a_caption spec else Some name) /\
    d_type kw = d_type ty /\
    d_minLength kw = d_minLength ty /\ d_maxLength kw = d_maxLength ty /\
    d_minimum kw = d_minimum ty /\ d_maximum kw = d_maximum ty /\
    d_observable_id kw = d_observable_id ty /\ d_pii kw = d_pii ty.
Proof.
  intros Hs Hname Hobj Harr Hty H.
  apply (field_args_of_dict _ _ _ _ _ _ Hs) in H. simpl in H.
  destruct (clean_html (a_description spec)) as [description|e|]; simpl in H; try done.
  destruct (truthy_bool (a_deprecated spec)); [done|].
  rewrite (eqb_include _ Hname), Hobj, Hty, Harr in H. simpl in H.
  destruct (_build_scalar_type sch (Some t)) as [ty|e|]; simpl in H; try done.
  injection H as <-. exists ty, description. split; [done|]. split; [done|].
  destruct (a_caption spec) as [caption|]; simpl;
  [destruct (String.eqb caption "")|];
  destruct (truthy_list (a_enum spec)),
    (bool_decide (a_requirement spec = Some REQUIRED)), (truthy_str (a_requirement spec)),
    (truthy_str (a_group spec)), (truthy_int (a_observable spec)); done.
Qed.

Lemma scalar_field_inherits_constraints_witness :
  exists kw s',
    _get_field_args schema_port "port" (AttrDict (spec_typed "port_t")) init_state = (Ok kw, s') /\
    d_description kw = Some "d" /\ d_type kw = Some "integer" /\
    d_minLength kw = Some 1 /\ d_minimum kw = Some 0 /\ d_maximum kw = Some 65535 /\
    d_pii kw = Some false.
Proof.
  destruct (_get_field_args schema_port "port" (AttrDict (spec_typed "port_t")) init_state)
    as [r s'] eqn:E.
  assert (Hr : exists kw, r = Ok kw) by (vm_compute in E; injection E as <- _; eauto).
  destruct Hr as [kw ->]. exists kw, s'. split; [done|].
  destruct (scalar_field_inherits_constraints schema_port "port" (spec_typed "port_t") "port_t"
              init_state kw s')
    as (ty & description & B & C & Hd & _ & Ht & Hmin & _ & Hlo & Hhi & _ & Hpii);
    [apply consistent_init | discriminate | reflexivity | reflexivity | reflexivity | exact E |].
  vm_compute in B. injection B as <-. injection C as <-.
  rewrite Hd, Ht, Hmin, Hlo, Hhi, Hpii. done.
Defined.

(** X8: the [enum] of a translated field lists the keys of the
    attribute's [enum] in the order of the document; an attribute without
    [enum], or with an empty one, gives a field without [enum]. *)
Theorem enum_lists_keys_in_order sch name spec s kw s' :
  types_consistent sch s ->
  name <> "$include" ->
  _get_field_args sch name (AttrDict spec) s = (Ok kw, s') ->
  d_enum kw = match a_enum spec with
              | Some (e :: es) => Some (map fst (e :: es))
              | _ => None
              end.
Proof.
  intros Hs Hname H.
  apply (field_args_of_dict _ _ _ _ _ _ Hs) in H. simpl in H.
  destruct (clean_html (a_description spec)) as [description|e|]; simpl in H; try done.
  destruct (truthy_bool (a_deprecated spec)); [done|].
  rewrite (eqb_include _ Hname) in H.
  assert (Hbase : exists base,
            (if truthy_str (a_object_type spec) then Ok (ref_desc (a_object_type spec))
             else scalar_type_of sch (a_type spec)) = Ok base /\ d_enum base = None).
  { destruct (truthy_str (a_object_type spec)).
    - eexists. split; [reflexivity | done].
    - destruct (scalar_type_of sch (a_type spec)) as [ty|e|] eqn:E; try done.
      exists ty. split; [done|]. by apply scalar_type_of_shape in E as (_&_&_&_&_&?&_). }
  destruct Hbase as (base & Eb & Hb). rewrite Eb in H. simpl in H.
  injection H as <-.
  destruct (a_enum spec) as [[|e es]|]; simpl;
  destruct (truthy_bool (a_is_array spec)),
    (bool_decide (a_requirement spec = Some REQUIRED)), (truthy_str (a_requirement spec)),
    (truthy_str (a_group spec)), (truthy_int (a_observable spec)); simpl; done.
Qed.

Lemma enum_lists_keys_in_order_witness :
  exists kw s',
    _get_field_args schema_empty "severity" (AttrDict spec_enum) init_state = (Ok kw, s') /\
    d_enum kw = Some ["1"; "2"].
Proof.
  destruct (_get_field_args schema_empty "severity" (AttrDict spec_enum) init_state)
    as [r s'] eqn:E.
  assert (Hr : exists kw, r = Ok kw) by (vm_compute in E; injection E as <- _; eauto).
  destruct Hr as [kw ->]. exists kw, s'. split; [done|].
  rewrite (enum_lists_keys_in_order schema_empty "severity" spec_enum init_state kw s');
    [reflexivity | apply consistent_init | discriminate | exact E].
Defined.

(** X9: a translated field is marked [required] exactly when the
    attribute's [requirement] is the string [required]; any other
    requirement leaves the field without the key. *)
Theorem required_only_for_required sch name spec s kw s' :
  types_consistent sch s ->
  name <> "$include" ->
  _get_field_args sch name (AttrDict spec) s = (Ok kw, s') ->
  d_required kw = (if bool_decide (a_requirement spec = Some "required") then Some true else None).
Proof.
  intros Hs Hname H.
  apply (field_args_of_dict _ _ _ _ _ _ Hs) in H. simpl in H.
  destruct (clean_html (a_description spec)) as [description|e|]; simpl in H; try done.
  destruct (truthy_bool (a_deprecated spec)); [done|].
  rewrite (eqb_include _ Hname) in H.
  assert (Hbase : exists base,
            (if truthy_str (a_object_type spec) then Ok (ref_desc (a_object_type spec))
             else scalar_type_of sch (a_type spec)) = Ok base /\ d_required base = None).
  { destruct (truthy_str (a_object_type spec)).
    - eexists. split; [reflexivity | done].
    - destruct (scalar_type_of sch (a_type spec)) as [ty|e|] eqn:E; try done.
      exists ty. split; [done|]. by apply scalar_type_of_shape in E as (_&_&_&_&_&_&?). }
  destruct Hbase as (base & Eb & Hb). rewrite Eb in H. simpl in H.
  injection H as <-. unfold REQUIRED.
  destruct (bool_decide (a_requirement spec = Some "required"));
  destruct (truthy_bool (a_is_array spec)), (truthy_list (a_enum spec)),
    (truthy_str (a_requirement spec)),
    (truthy_str (a_group spec)), (truthy_int (a_observable spec)); simpl; done.
Qed.

Lemma required_only_for_required_witness :
  exists kw s',
    _get_field_args schema_empty "severity" (AttrDict spec_enum) init_state = (Ok kw, s') /\
    d_required kw = Some true.
Proof.
  destruct (_get_field_args schema_empty "severity" (AttrDict spec_enum) init_state)
    as [r s'] eqn:E.
  assert (Hr : exists kw, r = Ok kw) by (vm_compute in E; injection E as <- _; eauto).
  destruct Hr as [kw ->]. exists kw, s'. split; [done|].
  rewrite (required_only_for_required schema_empty "severity" spec_enum init_state kw s');
    [reflexivity | apply consistent_init | discriminate | exact E].
Defined.

Lemma _build_scalar_type_not_deprecated sch n :
  _build_scalar_type sch n <> Raise DeprecatedField.
Proof.
  unfold _build_scalar_type.
  destruct (sch_types sch) as [| |types]; [done|done|].
  destruct (n ≫= _) as [spec|]; [|done].
  destruct (ts_description spec); simpl; [|done].
  destruct (index _ 0) as [?|e|] eqn:E0; simpl; try done.
  { destruct (index _ 1) as [?|e|] eqn:E1; simpl; try done.
    unfold index in E1. destruct (nth_error _ 1); congruence. }
  unfold index in E0. destruct (nth_error _ 0); congruence.
Qed.

Lemma _get_field_args_deprecated sch name v s r s' :
  _get_field_args sch name v s = (r, s') ->
  (forall kw, r = Ok kw -> deprecated v = false) /\
  (r = Raise DeprecatedField -> deprecated v = true).
Proof.
  destruct v as [spec|paths]; simpl.
  2:{ unfold raise. intros [= <- <-]. split; [done | done]. }
  unfold bind, lift, raise, ret.
  destruct (clean_html (a_description spec)) as [description|e|] eqn:Ec.
  2:{ intros [= <- <-]. split; [done|]. intros [= ->].
      unfold clean_html in Ec. by destruct (a_description spec). }
  2:{ intros [= <- <-]. by split. }
  destruct (truthy_bool (a_deprecated spec)).
  { intros [= <- <-]. by split. }
  destruct (String.eqb name "$include").
  { unfold log_warning. intros [= <- <-]. by split. }
  destruct (truthy_str (a_object_type spec)).
  { intros [= <- <-]. by split. }
  unfold get_scalar_type.
  destruct (ocsf_types s !! a_type spec).
  { intros [= <- <-]. by split. }
  pose proof (_build_scalar_type_not_deprecated sch (a_type spec)) as Hb.
  destruct (_build_scalar_type sch (a_type spec)) as [ty|e|]; intros [= <- <-]; split; done.
Qed.

Lemma dict_keys_set_new {V : Type} k (v : V) d :
  ~ In k (dict_keys d) -> dict_keys (dict_set k v d) = app (dict_keys d) [k].
Proof.
  induction d as [|[k' v'] d IH]; unfold dict_keys in *; simpl; [done|].
  intros H. destruct (String.eqb k k') eqn:E.
  - apply String.eqb_eq in E. subst. destruct H. by left.
  - simpl. f_equal. apply IH. intros Hin. apply H. by right.
Qed.

Lemma get_fields_from_order sch attributes : forall fields0 s fields s',
  NoDup (dict_keys attributes) ->
  (forall k, In k (dict_keys attributes) -> ~ In k (dict_keys fields0)) ->
  get_fields_from sch attributes fields0 s = (Ok fields, s') ->
  dict_keys fields =
  app (dict_keys fields0)
      (dict_keys (List.filter (fun nv => negb (deprecated (snd nv))) attributes)).
Proof.
  induction attributes as [|[name v] rest IH]; intros fields0 s fields s' Hnd Hfresh H; simpl in *.
  { injection H as <- _. by rewrite app_nil_r. }
  apply NoDup_cons in Hnd as [Hname Hnd].
  destruct (_get_field_args sch name v s) as [r s1] eqn:E.
  destruct (_get_field_args_deprecated _ _ _ _ _ _ E) as [Hok Hdep].
  destruct r as [kw|e|]; [| |done].
  - rewrite (Hok kw eq_refl). simpl.
    assert (Hnew : ~ In name (dict_keys fields0)) by (apply Hfresh; by left).
    assert (Hfresh' : forall k, In k (dict_keys rest) ->
                        ~ In k (dict_keys (dict_set name (MkField kw) fields0))).
    { intros k Hk. rewrite (dict_keys_set_new _ _ _ Hnew).
      intros [Hin|[->|[]]]%in_app_or.
      - eapply Hfresh; [right; exact Hk | done].
      - apply Hname. by apply list_elem_of_In. }
    rewrite (IH _ _ _ _ Hnd Hfresh' H), (dict_keys_set_new _ _ _ Hnew).
    by rewrite <- app_assoc.
  - destruct e; try done.
    rewrite (Hdep eq_refl). simpl. unfold bind, log_warning in H.
    apply (IH _ _ _ _ Hnd) in H; [done|].
    intros k Hk. apply Hfresh. by right.
Qed.

Lemma object_uncached sch s n :
  consistent sch s -> (forall bound d, object_of sch bound (Some n) <> Ok d) ->
  ocsf_objects s !! Some n = None.
Proof.
  intros [_ [bound [_ Hn]]] Hno.
  destruct (ocsf_objects s !! Some n) as [d|] eqn:E; [|done].
  by destruct (Hno bound d (Hn _ _ E)).
Qed.

Lemma get_object_missing sch fuel n s :
  consistent sch s -> sch_objects sch !! n = None ->
  get_object sch (S fuel) (Some n) s = (Raise (KeyError (Some n)), s).
Proof.
  intros Hs Hmiss. simpl.
  rewrite (object_uncached sch s n Hs).
  2:{ intros bound d H. apply object_of_in_schema in H as [x Hx]. congruence. }
  unfold _build_object. simpl. by rewrite Hmiss.
Qed.

Lemma ancestor_add sch j : forall k n,
  ancestor sch (j + k) n = ancestor sch j n ≫= ancestor sch k.
Proof.
  induction j as [|j IH]; intros k n; simpl; [done|].
  destruct (sch_objects sch !! n) as [spec|]; [|done].
  destruct (os_extends spec) as [b|]; [|done]. apply IH.
Qed.

Lemma cycle_endless sch n c :
  ancestor sch (S c) n = Some n -> forall k, is_Some (ancestor sch k n).
Proof.
  intros Hc k. induction (lt_wf k) as [k _ IH].
  destruct (le_lt_dec (S c) k) as [Hle|Hlt].
  - replace k with (S c + (k - S c))%nat by lia.
    rewrite ancestor_add, Hc. simpl. apply IH. lia.
  - assert (Hs : is_Some (ancestor sch (k + (S c - k)) n)).
    { replace (k + (S c - k))%nat with (S c) by lia. rewrite Hc. eauto. }
    rewrite ancestor_add in Hs. destruct (ancestor sch k n); [eauto|].
    by destruct Hs.
Qed.

Lemma endless_object_of sch : forall fuel n,
  (forall k, is_Some (ancestor sch k n)) -> object_of sch fuel (Some n) = OutOfFuel.
Proof.
  induction fuel as [|fuel IH]; intros n Hn; simpl; [done|].
  pose proof (Hn 1%nat) as H1. simpl in H1.
  destruct (sch_objects sch !! n) as [spec|] eqn:Es; [|by destruct H1].
  destruct (os_extends spec) as [b|] eqn:Eb; [|by destruct H1].
  rewrite IH; [done|].
  intros k. specialize (Hn (S k)). simpl in Hn. by rewrite Es, Eb in Hn.
Qed.

Lemma endless_get_object sch : forall fuel n s,
  consistent sch s -> (forall k, is_Some (ancestor sch k n)) ->
  get_object sch fuel (Some n) s = (OutOfFuel, s).
Proof.
  induction fuel as [|fuel IH]; intros n s Hs Hn; simpl;
    (rewrite (object_uncached sch s n Hs);
     [|intros bound d; by rewrite (endless_object_of sch bound n Hn)]); [done|].
  pose proof (Hn 1%nat) as H1. simpl in H1.
  unfold _build_object. simpl.
  destruct (sch_objects sch !! n) as [spec|] eqn:Es; [|by destruct H1].
  destruct (os_extends spec) as [b|] eqn:Eb; [|by destruct H1].
  unfold bind at 1. rewrite IH; [done | done |].
  intros k. specialize (Hn (S k)). simpl in Hn. by rewrite Es, Eb in Hn.
Qed.

Lemma fields_from_of_list sch attributes k paths :
  In (k, AttrList paths) attributes ->
  forall fields r, fields_from_of sch attributes fields <> Ok r.
Proof.
  induction attributes as [|[name v] rest IH]; intros Hin fields r; simpl; [done|].
  destruct Hin as [[= -> ->]|Hin]; [done|].
  destruct (field_args_of sch name v) as [kw|e|]; [by apply IH| |done].
  destruct e; try done. by apply IH.
Qed.

Lemma definitions_loop_no_refs sch ofuel recurse fields :
  (forall k field, In (k, field) fields -> ref_target field = None) ->
  forall known s, definitions_loop sch ofuel recurse fields known s = (Ok known, s).
Proof.
  induction fields as [|[k field] rest IH]; intros Hno known s; simpl; [done|].
  rewrite (Hno k field) by by left.
  apply IH. intros k' f' Hin. apply (Hno k'). by right.
Qed.

(** X10: when the attribute names are distinct, [get_fields] returns one
    field for each attribute that is not deprecated and none for the
    others, in the order of the document. *)
Theorem get_fields_keeps_order sch attributes s fields s' :
  NoDup (dict_keys attributes) ->
  get_fields sch attributes s = (Ok fields, s') ->
  dict_keys fields =
  dict_keys (List.filter (fun nv => negb (deprecated (snd nv))) attributes).
Proof.
  intros Hnd H. unfold get_fields in H.
  rewrite (get_fields_from_order _ _ _ _ _ _ Hnd) with (2 := H); [done|].
  intros k _ [].
Qed.

Lemma get_fields_keeps_order_witness :
  exists fields s',
    get_fields schema_empty attributes_with_deprecated init_state = (Ok fields, s') /\
    dict_keys fields = ["a"; "b"].
Proof.
  destruct (get_fields schema_empty attributes_with_deprecated init_state) as [r s'] eqn:E.
  assert (Hr : exists fields, r = Ok fields) by (vm_compute in E; injection E as <- _; eauto).
  destruct Hr as [fields ->]. exists fields, s'. split; [done|].
  rewrite (get_fields_keeps_order schema_empty attributes_with_deprecated init_state fields s');
    [reflexivity | | exact E].
  apply (bool_decide_unpack _). by vm_compute.
Defined.

(** X11: memoisation does not show in the result of [get_fields]:
    whatever the tables hold, as long as each entry is what building it
    would give, the same attributes give the same fields or the same
    exception. *)
Theorem get_fields_ignores_memo sch attributes s1 s2 :
  types_consistent sch s1 -> types_consistent sch s2 ->
  (get_fields sch attributes s1).1 = (get_fields sch attributes s2).1.
Proof.
  intros H1 H2. unfold get_fields.
  destruct (get_fields_from_spec sch attributes [] s1 H1) as (s1' & -> & _).
  destruct (get_fields_from_spec sch attributes [] s2 H2) as (s2' & -> & _).
  done.
Qed.

Lemma get_fields_ignores_memo_witness :
  (get_fields schema_port [("port", AttrDict (spec_typed "port_t"))] init_state).1 =
  (get_fields schema_port [("port", AttrDict (spec_typed "port_t"))]
     (get_scalar_type schema_port (Some "port_t") init_state).2).1.
Proof.
  apply get_fields_ignores_memo; [apply consistent_init|].
  destruct (get_scalar_type_spec schema_port (Some "port_t") init_state) as (s' & E & Hs & _);
    [apply consistent_init|].
  by rewrite E.
Defined.

(** X12: memoisation does not show in the result of [get_object] either:
    two importers over the same document that both resolve an object
    resolve it to the same descriptor, whatever each has resolved before
    and whatever recursion depth each needed. *)
Theorem get_object_ignores_memo sch fuel1 fuel2 n s1 s2 d1 d2 s1' s2' :
  consistent sch s1 -> consistent sch s2 ->
  get_object sch fuel1 n s1 = (Ok d1, s1') ->
  get_object sch fuel2 n s2 = (Ok d2, s2') ->
  d1 = d2.
Proof.
  intros [Ht1 [b1 Ho1]] [Ht2 [b2 Ho2]] E1 E2.
  destruct (get_object_sound _ _ _ _ _ _ _ Ht1 Ho1 E1) as (_ & _ & Hr1).
  destruct (get_object_sound _ _ _ _ _ _ _ Ht2 Ho2 E2) as (_ & _ & Hr2).
  specialize (Hr1 _ eq_refl). specialize (Hr2 _ eq_refl).
  apply (object_of_mono _ _ (b1 + fuel1 + (b2 + fuel2))) in Hr1; [|lia].
  apply (object_of_mono _ _ (b1 + fuel1 + (b2 + fuel2))) in Hr2; [|lia].
  congruence.
Qed.

Lemma get_object_ignores_memo_witness :
  exists d s1 s2,
    get_object schema_BD 2 (Some "D") init_state = (Ok d, s1) /\
    get_object schema_BD 1 (Some "D")
      (get_object schema_BD 1 (Some "B") init_state).2 = (Ok d, s2).
Proof.
  destruct (get_object schema_BD 2 (Some "D") init_state) as [r1 s1] eqn:E1.
  destruct (get_object schema_BD 1 (Some "B") init_state) as [r0 s0] eqn:E0.
  destruct (get_object schema_BD 1 (Some "D") s0) as [r2 s2] eqn:E2.
  assert (H1 : exists d, r1 = Ok d) by (vm_compute in E1; injection E1 as <- _; eauto).
  assert (H2 : exists d, r2 = Ok d).
  { vm_compute in E0. injection E0 as _ <-. vm_compute in E2. injection E2 as <- _. eauto. }
  destruct H1 as [d1 ->], H2 as [d2 ->].
  exists d1, s1, s2. split; [done|]. simpl.
  rewrite (get_object_ignores_memo schema_BD 2 1 (Some "D") init_state s0 d1 d2 s1 s2);
    [done | apply consistent_init | | exact E1 | exact E2].
  eapply get_object_consistent; [apply consistent_init | exact E0].
Defined.

(** X13: resolving a name that the document does not define raises
    [KeyError] with that name and memoises nothing. *)
Theorem unknown_object_raises sch fuel n s :
  consistent sch s -> sch_objects sch !! n = None ->
  get_object sch (S fuel) (Some n) s = (Raise (KeyError (Some n)), s).
Proof. apply get_object_missing. Qed.

Lemma unknown_object_raises_witness :
  get_object schema_internal_only 1 (Some "user") init_state
  = (Raise (KeyError (Some "user")), init_state).
Proof.
  apply (unknown_object_raises schema_internal_only 0 "user" init_state);
    [apply consistent_init | reflexivity].
Defined.

(** X14: an object whose [extends] names an object that the document does
    not define cannot be resolved: the [KeyError] of the base comes out,
    and neither of the two is memoised.  This is what happens to [_entity]
    and [_dns] of [INTERNAL_OBJECTS] under a document without [object]. *)
Theorem unknown_base_raises sch fuel n spec b s :
  consistent sch s ->
  sch_objects sch !! n = Some spec -> os_extends spec = Some b ->
  sch_objects sch !! b = None ->
  get_object sch (S (S fuel)) (Some n) s = (Raise (KeyError (Some b)), s).
Proof.
  intros Hs Hn Hext Hb.
  remember (get_object sch (S fuel)) as resolve eqn:Hresolve.
  change (get_object sch (S (S fuel)) (Some n) s) with
    (match ocsf_objects s !! Some n with
     | Some d => (Ok d, s)
     | None =>
         match _build_object sch (get_object sch (S fuel)) (Some n) s with
         | (Ok d, s') =>
             (Ok d, mkState (ocsf_types s') (<[Some n := d]> (ocsf_objects s')) (warnings s'))
         | (Raise e, s') => (Raise e, s')
         | (OutOfFuel, s') => (OutOfFuel, s')
         end
     end).
  rewrite <- Hresolve.
  rewrite (object_uncached sch s n Hs).
  2:{ intros [|bound] d; simpl; [done|]. rewrite Hn, Hext.
      destruct bound; simpl; [done|]. by rewrite Hb. }
  unfold _build_object. simpl. rewrite Hn, Hext.
  unfold bind at 1. rewrite Hresolve.
  by rewrite (get_object_missing sch fuel b s Hs Hb).
Qed.

Lemma unknown_base_raises_witness :
  get_object schema_internal_only 2 (Some "_entity") init_state
  = (Raise (KeyError (Some "object")), init_state).
Proof.
  eapply (unknown_base_raises schema_internal_only 0 "_entity" _ "object" init_state);
    [apply consistent_init | reflexivity | reflexivity | reflexivity].
Defined.

(** X15: when following [extends] from an object leads back to that
    object, [get_object] never returns for it: whatever the recursion
    budget, the call exhausts it, and nothing is memoised. *)
Theorem cyclic_extends_never_returns sch c n fuel s :
  consistent sch s ->
  ancestor sch (S c) n = Some n ->
  get_object sch fuel (Some n) s = (OutOfFuel, s).
Proof.
  intros Hs Hc. apply endless_get_object; [done|]. by apply (cycle_endless sch n c).
Qed.

Lemma cyclic_extends_never_returns_witness :
  get_object schema_loop 1000 (Some "a") init_state = (OutOfFuel, init_state).
Proof.
  apply (cyclic_extends_never_returns schema_loop 1 "a" 1000 init_state);
    [apply consistent_init | reflexivity].
Defined.

(** X16: an object one of whose attributes holds a list instead of a
    spec, as [$include] does in [_resource] of [INTERNAL_OBJECTS], is
    never resolved: [get_object] does not return a descriptor for it. *)
Theorem include_list_never_resolves sch fuel n spec attributes k paths s r s' :
  consistent sch s ->
  sch_objects sch !! n = Some spec ->
  os_attributes spec = Value attributes ->
  In (k, AttrList paths) attributes ->
  get_object sch fuel (Some n) s = (r, s') ->
  forall d, r <> Ok d.
Proof.
  intros [Ht [bound Ho]] Hn Ha Hin E d ->.
  destruct (get_object_sound _ _ _ _ _ _ _ Ht Ho E) as (_ & _ & Hr).
  specialize (Hr _ eq_refl).
  destruct (bound + fuel)%nat as [|m]; simpl in Hr; [done|].
  rewrite Hn in Hr.
  destruct (object_of sch m (os_extends spec)); simpl in Hr; try done.
  destruct (clean_html (os_description spec)); simpl in Hr; try done.
  unfold attributes_of in Hr. rewrite Ha in Hr. simpl in Hr.
  destruct (fields_from_of sch attributes []) as [fields|e|] eqn:Ef; simpl in Hr; try done.
  by apply (fields_from_of_list sch attributes k paths Hin) in Ef.
Qed.

Lemma include_list_never_resolves_witness :
  (get_object schema_with_object 3 (Some "_resource") init_state).1 = Raise AttributeError /\
  forall d, (get_object schema_with_object 3 (Some "_resource") init_state).1 <> Ok d.
Proof.
  split; [by vm_compute|].
  destruct (get_object schema_with_object 3 (Some "_resource") init_state) as [r s'] eqn:E.
  eapply (include_list_never_resolves schema_with_object 3 "_resource" _ _
            "$include" ["profiles/data_classification.json"] init_state r s');
    [apply consistent_init | reflexivity | reflexivity | by left | exact E].
Defined.

(** X17: the reference of an array attribute sits in [items], where
    [get_definitions] does not look: for a field translated from an
    attribute with [is_array], the collector adds nothing to the known
    definitions and resolves nothing, even when the attribute has an
    [object_type]. *)
Theorem array_reference_not_collected sch ofuel fuel name spec s kw s' known s0 :
  name <> "$include" ->
  truthy_bool (a_is_array spec) = true ->
  _get_field_args sch name (AttrDict spec) s = (Ok kw, s') ->
  get_definitions sch ofuel (S fuel) [(name, MkField kw)] (Some known) s0 = (Ok known, s0).
Proof.
  intros Hname Harr H.
  assert (Href : d_ref kw = None).
  { simpl in H. unfold bind, lift, raise, ret in H.
    destruct (clean_html (a_description spec)) as [description|e|]; try done.
    destruct (truthy_bool (a_deprecated spec)); [done|].
    rewrite (eqb_include _ Hname), Harr in H.
    destruct (truthy_str (a_object_type spec)).
    - injection H as <- _.
      destruct (truthy_str (a_group spec)), (truthy_int (a_observable spec)),
        (truthy_list (a_enum spec)),
        (bool_decide (a_requirement spec = Some REQUIRED)),
        (truthy_str (a_requirement spec)); reflexivity.
    - destruct (get_scalar_type sch (a_type spec) s) as [[base|e|] s1]; try done.
      injection H as <- _.
      destruct (truthy_str (a_group spec)), (truthy_int (a_observable spec)),
        (truthy_list (a_enum spec)),
        (bool_decide (a_requirement spec = Some REQUIRED)),
        (truthy_str (a_requirement spec)); reflexivity. }
  change (definitions_loop sch ofuel
            (fun defn_fields known => get_definitions sch ofuel fuel defn_fields (Some known))
            [(name, MkField kw)] known s0 = (Ok known, s0)).
  apply definitions_loop_no_refs.
  intros k field [[= <- <-]|[]]. unfold ref_target, ref. simpl. by rewrite Href.
Qed.

Lemma array_reference_not_collected_witness :
  exists kw s',
    _get_field_args schema_empty "users" (AttrDict spec_array_of_foo) init_state = (Ok kw, s') /\
    d_items kw = Some (ref_desc (Some "foo")) /\
    get_definitions schema_empty 1 1 [("users", MkField kw)] (Some ∅) s' = (Ok ∅, s').
Proof.
  destruct (_get_field_args schema_empty "users" (AttrDict spec_array_of_foo) init_state)
    as [r s'] eqn:E.
  assert (Hr : exists kw, r = Ok kw /\ d_items kw = Some (ref_desc (Some "foo"))).
  { vm_compute in E. injection E as <- _. eauto. }
  destruct Hr as (kw & -> & Hi). exists kw, s'. split; [done|]. split; [done|].
  apply (array_reference_not_collected schema_empty 1 0 "users" spec_array_of_foo
           init_state kw s' ∅ s'); [discriminate | reflexivity | exact E].
Defined.

(** X18: a field that refers to an object the document does not define
    stops the collector: the [KeyError] of the missing object comes out
    of [get_definitions], whatever fields follow. *)
Theorem dangling_reference_raises sch ofuel fuel k field rest n known s :
  consistent sch s ->
  ref_target field = Some n ->
  known !! n = None ->
  sch_objects sch !! n = None ->
  get_definitions sch (S ofuel) (S fuel) ((k, field) :: rest) (Some known) s
  = (Raise (KeyError (Some n)), s).
Proof.
  intros Hs Href Hk Hmiss.
  change (get_definitions sch (S ofuel) (S fuel) ((k, field) :: rest) (Some known) s) with
    (match ref_target field with
     | None => definitions_loop sch (S ofuel)
                 (fun defn_fields known => get_definitions sch (S ofuel) fuel defn_fields (Some known))
                 rest known
     | Some obj_to_include =>
         match known !! obj_to_include with
         | Some _ => definitions_loop sch (S ofuel)
                 (fun defn_fields known => get_definitions sch (S ofuel) fuel defn_fields (Some known))
                 rest known
         | None =>
             let! defn := get_object sch (S ofuel) (Some obj_to_include) in
             let known_definitions := <[obj_to_include := defn]> known in
             let! defn_fields := lift (item "fields" (o_fields defn)) in
             let! known_definitions :=
               get_definitions sch (S ofuel) fuel defn_fields (Some known_definitions) in
             definitions_loop sch (S ofuel)
                 (fun defn_fields known => get_definitions sch (S ofuel) fuel defn_fields (Some known))
                 rest known_definitions
         end
     end s).
  rewrite Href, Hk. unfold bind at 1.
  by rewrite (get_object_missing sch ofuel n s Hs Hmiss).
Qed.

Lemma dangling_reference_raises_witness :
  get_definitions schema_empty 1 1 [("user", MkField (ref_desc (Some "user")))] (Some ∅)
    init_state
  = (Raise (KeyError (Some "user")), init_state).
Proof.
  apply (dangling_reference_raises schema_empty 0 0 "user" (MkField (ref_desc (Some "user")))
           [] "user" ∅ init_state);
    [apply consistent_init | reflexivity | reflexivity | reflexivity].
Defined.

Lemma select_classes_missing classes : forall l acc c,
  In c l -> dict_get c classes = None ->
  exists c', In c' l /\ dict_get c' classes = None /\
             select_classes classes l acc = Raise (KeyError (Some c')).
Proof.
  induction l as [|c0 l IH]; intros acc c Hin Hc; [by destruct Hin|]. simpl.
  destruct (dict_get c0 classes) as [spec|] eqn:E0.
  - destruct Hin as [->|Hin]; [congruence|].
    destruct (IH (dict_set c0 spec acc) c Hin Hc) as (c' & Hin' & Hc' & E).
    exists c'. split; [by right | done].
  - exists c0. split; [by left | done].
Qed.

Lemma select_classes_keys classes : forall l acc r k,
  select_classes classes l acc = Ok r ->
  In k (dict_keys r) -> In k (dict_keys acc) \/ dict_get k classes <> None.
Proof.
  induction l as [|c0 l IH]; intros acc r k H Hk; simpl in H.
  { injection H as <-. by left. }
  destruct (dict_get c0 classes) as [spec|] eqn:E0; [|done].
  destruct (IH _ _ _ H Hk) as [Hin|?]; [|by right].
  destruct (decide (k = c0)) as [->|Hne]; [right; congruence|].
  left. clear -Hin Hne. induction acc as [|[k' v'] acc IHacc]; simpl in *.
  - destruct Hin as [?|[]]. congruence.
  - destruct (String.eqb c0 k') eqn:E; simpl in *.
    + apply String.eqb_eq in E. subst. destruct Hin; [congruence | by right].
    + destruct Hin; [by left | right; by apply IHacc].
Qed.

Lemma dict_get_In {V : Type} k (d : dict V) : dict_get k d = None -> ~ In k (dict_keys d).
Proof.
  induction d as [|[k' v'] d IH]; simpl; [by intros _ []|].
  destruct (String.eqb k k') eqn:E; [done|].
  apply String.eqb_neq in E. intros H [?|Hin]; [congruence | by apply IH].
Qed.

Lemma replace_hyphens_idem s : replace_hyphens (replace_hyphens s) = replace_hyphens s.
Proof.
  induction s as [|c s IH]; simpl; [done|]. rewrite IH. f_equal.
  destruct (Ascii.eqb c "-") eqn:E; [done|]. by rewrite E.
Qed.

Lemma import_models_other sch : forall input_models models s r s' name,
  import_models sch input_models models s = (Ok r, s') ->
  ~ In name (dict_keys input_models) ->
  dict_get name r = dict_get name models.
Proof.
  induction input_models as [|[n0 spec0] rest IH]; intros models s r s' name H Hname; simpl in H.
  { by injection H as <- _. }
  unfold bind, lift in H.
  destruct (attributes_of spec0) as [attributes|e|]; try done.
  destruct (get_fields sch attributes s) as [[fields|e|] s1]; try done.
  destruct (clean_html (os_description spec0)) as [description|e|]; try done.
  rewrite (IH _ _ _ _ name H); [|intros Hin; apply Hname; by right].
  rewrite dict_get_set.
  destruct (String.eqb name n0) eqn:E; [|done].
  apply String.eqb_eq in E. destruct Hname. by left.
Qed.

Lemma import_models_content sch : forall input_models models s r s' name spec,
  types_consistent sch s ->
  NoDup (dict_keys input_models) ->
  In (name, spec) input_models ->
  import_models sch input_models models s = (Ok r, s') ->
  exists attributes fields description,
    os_attributes spec = Value attributes /\
    (get_fields sch attributes init_state).1 = Ok fields /\
    clean_html (os_description spec) = Ok description /\
    dict_get name r =
      Some {| m_title := get_default (os_name spec) name;
              m_description := Some description;
              m_type := get_default (os_type spec) "table";
              m_fields := fields |}.
Proof.
  induction input_models as [|[n0 spec0] rest IH];
    intros models s r s' name spec Hs Hnd Hin H; [by destruct Hin|].
  simpl in H. unfold bind, lift in H.
  apply NoDup_cons in Hnd as [Hn0 Hnd].
  unfold attributes_of in H.
  destruct (os_attributes spec0) as [| |attributes] eqn:Ea; simpl in H; [done|done|].
  unfold get_fields in H.
  destruct (get_fields_from_spec sch attributes [] s Hs) as (s1 & E1 & Hs1 & _).
  rewrite E1 in H.
  destruct (fields_from_of sch attributes []) as [fields|e|] eqn:Ef; try done.
  destruct (clean_html (os_description spec0)) as [description|e|] eqn:Ec; try done.
  destruct Hin as [[= -> ->]|Hin].
  - exists attributes, fields, description. split; [done|]. split.
    { unfold get_fields.
      destruct (get_fields_from_spec sch attributes [] init_state) as (s0 & -> & _);
        [apply consistent_init | done]. }
    split; [done|].
    rewrite (import_models_other _ _ _ _ _ _ name H).
    + by rewrite dict_get_set, String.eqb_refl.
    + intros Hin. apply Hn0. by apply list_elem_of_In.
  - by apply (IH _ _ _ _ name spec Hs1 Hnd Hin H).
Qed.

Lemma gathered_nil known : gathered [] known known.
Proof.
  split; [done|]. split.
  - intros n (k & f & [] & _).
  - intros m d fs n H1 H2. congruence.
Qed.

Lemma gathered_skip k field rest known known' :
  (forall n, ref_target field = Some n -> is_Some (known !! n)) ->
  gathered rest known known' -> gathered ((k, field) :: rest) known known'.
Proof.
  intros Hskip (Hsub & Hroots & Hclosed). split; [done|]. split; [|done].
  intros n [Hn|Hn]%refers_cons_inv; [|by apply Hroots].
  destruct (Hskip _ Hn) as [d Hd]. exists d. eapply lookup_weaken; eauto.
Qed.

Lemma gathered_step k field rest obj defn defn_fields known known2 known3 :
  ref_target field = Some obj ->
  known !! obj = None ->
  o_fields defn = Some defn_fields ->
  gathered defn_fields (<[obj := defn]> known) known2 ->
  gathered rest known2 known3 ->
  gathered ((k, field) :: rest) known known3.
Proof.
  intros Href Hnew Hf (Hsub2 & Hroots2 & Hclosed2) (Hsub3 & Hroots3 & Hclosed3).
  assert (Hobj2 : known2 !! obj = Some defn).
  { eapply lookup_weaken; [|apply Hsub2]. apply lookup_insert_eq. }
  assert (Hup : forall n, is_Some (known2 !! n) -> is_Some (known3 !! n)).
  { intros n [d Hd]. exists d. eapply lookup_weaken; eauto. }
  split; [|split].
  - etrans; [by apply insert_subseteq|]. etrans; eauto.
  - intros n [Hn|Hn]%refers_cons_inv; [|by apply Hroots3].
    replace n with obj by congruence. apply Hup. eauto.
  - intros m d fs n Hm Hm3 Hfs Hn.
    destruct (known2 !! m) as [d2|] eqn:E2.
    2:{ eapply Hclosed3; eauto. }
    assert (d2 = d) as ->.
    { pose proof (lookup_weaken _ _ _ _ E2 Hsub3). congruence. }
    apply Hup.
    destruct (decide (m = obj)) as [->|Hne].
    + apply Hroots2. congruence.
    + eapply (Hclosed2 m); eauto. by rewrite lookup_insert_ne.
Qed.

Lemma definitions_loop_gathers sch ofuel
    (recurse : dict Field -> gmap string ObjDesc -> M (gmap string ObjDesc)) :
  (forall fields known s known' s',
     recurse fields known s = (Ok known', s') -> gathered fields known known') ->
  forall fields known s known' s',
    definitions_loop sch ofuel recurse fields known s = (Ok known', s') ->
    gathered fields known known'.
Proof.
  intros Hrec. induction fields as [|[k field] rest IH]; intros known s known' s' H; simpl in H.
  { injection H as <- _. apply gathered_nil. }
  destruct (ref_target field) as [obj|] eqn:Href.
  2:{ apply gathered_skip; [|by eapply IH]. intros n Hn. congruence. }
  destruct (known !! obj) as [d0|] eqn:Hk.
  { apply gathered_skip; [|by eapply IH]. intros n Hn. replace n with obj by congruence. eauto. }
  unfold bind at 1 in H.
  destruct (get_object sch ofuel (Some obj) s) as [[defn|e|] s1]; try done.
  unfold bind at 1, lift in H.
  destruct (o_fields defn) as [defn_fields|] eqn:Hf; simpl in H; [|done].
  unfold bind in H.
  destruct (recurse defn_fields (<[obj := defn]> known) s1) as [[known2|e|] s2] eqn:E2; try done.
  eapply gathered_step; eauto.
Qed.

Lemma get_definitions_gathers sch ofuel : forall fuel fields known s known' s',
  get_definitions sch ofuel fuel fields (Some known) s = (Ok known', s') ->
  gathered fields known known'.
Proof.
  induction fuel as [|fuel IH]; intros fields known s known' s' H; [done|].
  simpl in H.
  apply (definitions_loop_gathers sch ofuel
           (fun defn_fields known => get_definitions sch ofuel fuel defn_fields (Some known)))
    with (s := s) (s' := s'); [|exact H].
  intros fields0 known0 s0 known0' s0' H0. by apply (IH _ _ _ _ _ H0).
Qed.

Lemma gathered_closed fields known known' :
  closed known -> gathered fields known known' -> closed known'.
Proof.
  intros Hc (Hsub & _ & Hclosed) m d fs n Hm Hfs Hn.
  destruct (known !! m) as [d0|] eqn:E.
  - assert (d0 = d) as -> by (pose proof (lookup_weaken _ _ _ _ E Hsub); congruence).
    destruct (Hc _ _ _ _ E Hfs Hn) as [x Hx]. exists x. eapply lookup_weaken; eauto.
  - eapply Hclosed; eauto.
Qed.

Lemma collect_definitions_closed sch ofuel fuel : forall ms defs0 s defs s',
  closed defs0 ->
  collect_definitions sch ofuel fuel ms defs0 s = (Ok defs, s') ->
  defs0 ⊆ defs /\ closed defs /\
  forall name model n, In (name, model) ms -> refers (m_fields model) n -> is_Some (defs !! n).
Proof.
  induction ms as [|[name0 model0] rest IH]; intros defs0 s defs s' Hc H; simpl in H.
  { injection H as <- _. split; [done|]. split; [done|]. by intros ? ? ? []. }
  unfold bind in H.
  destruct (get_definitions sch ofuel fuel (m_fields model0) (Some defs0) s)
    as [[defs1|e|] s1] eqn:E1; try done.
  apply get_definitions_gathers in E1.
  pose proof (gathered_closed _ _ _ Hc E1) as Hc1.
  destruct E1 as (Hsub1 & Hroots1 & _).
  destruct (IH _ _ _ _ Hc1 H) as (Hsub & Hcl & Hroots).
  split; [by etrans|]. split; [done|].
  intros name model n [[= <- <-]|Hin] Hn; [|by eapply Hroots].
  destruct (Hroots1 _ Hn) as [x Hx]. exists x. eapply lookup_weaken; eauto.
Qed.

Lemma definitions_loop_consistent sch ofuel
    (recurse : dict Field -> gmap string ObjDesc -> M (gmap string ObjDesc)) :
  (forall fields known s r s',
     consistent sch s -> recurse fields known s = (r, s') -> consistent sch s') ->
  forall fields known s r s',
    consistent sch s -> definitions_loop sch ofuel recurse fields known s = (r, s') ->
    consistent sch s'.
Proof.
  intros Hrec. induction fields as [|[k field] rest IH]; intros known s r s' Hs H; simpl in H.
  { by injection H as _ <-. }
  destruct (ref_target field) as [obj|]; [|by eapply IH].
  destruct (known !! obj) as [d0|]; [by eapply IH|].
  unfold bind at 1 in H.
  destruct (get_object sch ofuel (Some obj) s) as [r1 s1] eqn:E1.
  pose proof (get_object_consistent _ _ _ _ _ _ Hs E1) as Hs1.
  destruct r1 as [defn|e|]; [|by injection H as _ <-..].
  unfold bind at 1, lift in H.
  destruct (o_fields defn) as [defn_fields|]; simpl in H; [|by injection H as _ <-].
  unfold bind in H.
  destruct (recurse defn_fields (<[obj := defn]> known) s1) as [r2 s2] eqn:E2.
  pose proof (Hrec _ _ _ _ _ Hs1 E2) as Hs2.
  destruct r2 as [known2|e|]; [|by injection H as _ <-..].
  by eapply IH.
Qed.

Lemma get_definitions_consistent sch ofuel : forall fuel fields known s r s',
  consistent sch s -> get_definitions sch ofuel fuel fields known s = (r, s') ->
  consistent sch s'.
Proof.
  induction fuel as [|fuel IH]; intros fields known s r s' Hs H; simpl in H.
  { by injection H as _ <-. }
  apply (definitions_loop_consistent sch ofuel
           (fun defn_fields known => get_definitions sch ofuel fuel defn_fields (Some known)))
    with (fields := fields) (known := default ∅ known) (s := s) (r := r); [|done|exact H].
  intros fields0 known0 s0 r0 s0' Hs0 H0. by apply (IH _ _ _ _ _ Hs0 H0).
Qed.

Lemma get_fields_consistent sch attributes s r s' :
  consistent sch s -> get_fields sch attributes s = (r, s') -> consistent sch s'.
Proof.
  intros [Ht [bound Ho]] H. unfold get_fields in H.
  destruct (get_fields_from_spec sch attributes [] s Ht) as (s1 & E & Ht1 & Ho1).
  rewrite E in H. injection H as _ <-.
  split; [done|]. exists bound. destruct Ho as [H0 Hn]. split; rewrite Ho1; done.
Qed.

Lemma import_models_consistent sch : forall input_models models s r s',
  consistent sch s -> import_models sch input_models models s = (r, s') -> consistent sch s'.
Proof.
  induction input_models as [|[n0 spec0] rest IH]; intros models s r s' Hs H; simpl in H.
  { by injection H as _ <-. }
  unfold bind, lift in H.
  destruct (attributes_of spec0) as [attributes|e|];
    [|by injection H as _ <-..].
  destruct (get_fields sch attributes s) as [r1 s1] eqn:E1.
  pose proof (get_fields_consistent _ _ _ _ _ Hs E1) as Hs1.
  destruct r1 as [fields|e|]; [|by injection H as _ <-..].
  destruct (clean_html (os_description spec0)) as [description|e|];
    [|by injection H as _ <-..].
  by eapply IH.
Qed.

Lemma collect_definitions_consistent sch ofuel fuel : forall ms defs0 s r s',
  consistent sch s -> collect_definitions sch ofuel fuel ms defs0 s = (r, s') ->
  consistent sch s'.
Proof.
  induction ms as [|[name0 model0] rest IH]; intros defs0 s r s' Hs H; simpl in H.
  { by injection H as _ <-. }
  unfold bind in H.
  destruct (get_definitions sch ofuel fuel (m_fields model0) (Some defs0) s) as [r1 s1] eqn:E1.
  pose proof (get_definitions_consistent _ _ _ _ _ _ _ _ Hs E1) as Hs1.
  destruct r1 as [defs1|e|]; [|by injection H as _ <-..].
  by eapply IH.
Qed.

(** X19: a class filter that names a class the document does not have
    stops the import before anything is translated: [KeyError] is raised
    with the name of such a class, hyphens replaced by underscores, and
    the importer is left as it was. *)
Theorem unknown_class_raises ofuel fuel contract sch classes ocsf_classes c s :
  sch_classes sch = Value classes ->
  In c ocsf_classes -> dict_get (replace_hyphens c) classes = None ->
  exists c', In c' ocsf_classes /\ dict_get (replace_hyphens c') classes = None /\
    import_ocsfschema ofuel fuel contract sch (Some ocsf_classes) s
    = (Raise (KeyError (Some (replace_hyphens c'))), s).
Proof.
  intros Hcl Hin Hc.
  destruct (select_classes_missing classes (map replace_hyphens ocsf_classes) []
              (replace_hyphens c)) as (c1 & Hin1 & Hc1 & E); [by apply in_map | done |].
  apply in_map_iff in Hin1 as (c' & <- & Hin').
  exists c'. split; [done|]. split; [done|].
  unfold import_ocsfschema, bind, lift, classes_of. rewrite Hcl. simpl.
  destruct ocsf_classes as [|c0 l]; [by destruct Hin|].
  simpl truthy_list. cbv iota. simpl default. by rewrite E.
Qed.

Lemma unknown_class_raises_witness :
  import_ocsfschema 2 2 (mkContract None None) schema_two_classes
    (Some ["file-activity"; "process-activity"]) init_state
  = (Raise (KeyError (Some "process_activity")), init_state).
Proof.
  destruct (unknown_class_raises 2 2 (mkContract None None) schema_two_classes
              [("file_activity", mkObjectSpec None Missing (Some "File <b>activity</b>") None Missing
                            (Value [("actor", ref_attr "_entity")]));
               ("network_activity", mkObjectSpec None (Value "Network") (Some "Network activity")
                               None (Value "view") (Value [("peer", plain_attr "the other end")]))]
              ["file-activity"; "process-activity"] "process-activity" init_state)
    as (c' & [<-|[<-|[]]] & Hc & E); [reflexivity | right; by left | reflexivity | |].
  - discriminate Hc.
  - exact E.
Defined.

(** X20: class names of the filter are matched after their hyphens are
    replaced by underscores: a filter and the same filter written with
    underscores give the same import. *)
Theorem class_filter_hyphens_normalised ofuel fuel contract sch ocsf_classes s :
  import_ocsfschema ofuel fuel contract sch (Some (map replace_hyphens ocsf_classes)) s =
  import_ocsfschema ofuel fuel contract sch (Some ocsf_classes) s.
Proof.
  unfold import_ocsfschema, bind, lift.
  assert (truthy_list (Some (map replace_hyphens ocsf_classes)) =
          truthy_list (Some ocsf_classes)) as -> by by destruct ocsf_classes.
  destruct (classes_of sch (truthy_list (Some ocsf_classes))) as [classes|e|]; try done.
  simpl default. rewrite map_map.
  rewrite (map_ext _ replace_hyphens (fun c => replace_hyphens_idem c)). done.
Qed.

(** X21: a model that the contract already holds and whose name is not a
    class of the document is still there after the import, unchanged. *)
Theorem import_keeps_other_models ofuel fuel contract sch classes ocsf_classes s c' s' name :
  sch_classes sch = Value classes ->
  dict_get name classes = None ->
  import_ocsfschema ofuel fuel contract sch ocsf_classes s = (Ok c', s') ->
  models c' ≫= dict_get name = models contract ≫= dict_get name.
Proof.
  intros Hcl Hname H. unfold import_ocsfschema, bind, lift, classes_of in H.
  rewrite Hcl in H. simpl in H.
  destruct (if truthy_list ocsf_classes
            then select_classes classes (map replace_hyphens (default [] ocsf_classes)) []
            else Ok classes) as [input_models|e|] eqn:Ei; try done.
  destruct (import_models sch input_models (default [] (models contract)) s)
    as [[models1|e|] s1] eqn:E1; try done.
  destruct (collect_definitions sch ofuel fuel models1 ∅ s1) as [[defs|e|] s2]; try done.
  injection H as <- _. simpl.
  rewrite (import_models_other _ _ _ _ _ _ name E1).
  - by destruct (models contract).
  - destruct (truthy_list ocsf_classes).
    + intros Hin. destruct (select_classes_keys _ _ _ _ _ Ei Hin) as [[]|Hne]. congruence.
    + injection Ei as <-. by apply dict_get_In.
Qed.

Lemma import_keeps_other_models_witness :
  exists c' s',
    import_ocsfschema 2 2 contract_with_model schema_two_classes None init_state = (Ok c', s') /\
    models c' ≫= dict_get "orders" = Some (MkModel (Some "Orders") None (Some "table") []).
Proof.
  destruct (import_ocsfschema 2 2 contract_with_model schema_two_classes None init_state)
    as [r s'] eqn:E.
  assert (Hr : exists c', r = Ok c') by (vm_compute in E; injection E as <- _; eauto).
  destruct Hr as [c' ->]. exists c', s'. split; [done|].
  rewrite (import_keeps_other_models 2 2 contract_with_model schema_two_classes
             [("file_activity", mkObjectSpec None Missing (Some "File <b>activity</b>") None Missing
                            (Value [("actor", ref_attr "_entity")]));
              ("network_activity", mkObjectSpec None (Value "Network") (Some "Network activity")
                               None (Value "view") (Value [("peer", plain_attr "the other end")]))]
             None init_state c' s' "orders");
    [reflexivity | reflexivity | reflexivity | exact E].
Defined.

(** X22: after an import without class filter, each class of the
    document (class names being distinct) has its model: the title is
    what [spec.get("name", name)] gives, that is the [name] of the class,
    its key when the class has no [name], and nothing when [name] holds
    [null]; the type is what [spec.get("type", "table")] gives in the same
    way; the description is the cleaned description and the fields are
    those that [get_fields] gives for its attributes. *)
Theorem imported_model_content ofuel fuel contract sch classes s c' s' name spec :
  types_consistent sch s ->
  sch_classes sch = Value classes ->
  NoDup (dict_keys classes) ->
  In (name, spec) classes ->
  import_ocsfschema ofuel fuel contract sch None s = (Ok c', s') ->
  exists attributes fields description,
    os_attributes spec = Value attributes /\
    (get_fields sch attributes init_state).1 = Ok fields /\
    clean_html (os_description spec) = Ok description /\
    models c' ≫= dict_get name =
      Some {| m_title := match os_name spec with
                         | Missing => Some name
                         | Null => None
                         | Value title => Some title
                         end;
              m_description := Some description;
              m_type := match os_type spec with
                        | Missing => Some "table"
                        | Null => None
                        | Value type => Some type
                        end;
              m_fields := fields |}.
Proof.
  intros Hs Hcl Hnd Hin H. unfold import_ocsfschema, bind, lift, classes_of in H.
  rewrite Hcl in H.
  simpl in H.
  destruct (import_models sch classes (default [] (models contract)) s)
    as [[models1|e|] s1] eqn:E1; try done.
  destruct (collect_definitions sch ofuel fuel models1 ∅ s1) as [[defs|e|] s2]; try done.
  injection H as <- _. simpl.
  destruct (import_models_content _ _ _ _ _ _ name spec Hs Hnd Hin E1)
    as (attributes & fields & description & Ha & Hf & Hd & Hm).
  exists attributes, fields, description. split; [done|]. split; [done|]. split; [done|].
  rewrite Hm. unfold get_default. by destruct (os_name spec), (os_type spec).
Qed.

Lemma imported_model_content_witness :
  (exists c' s' fields,
     import_ocsfschema 2 2 contract_with_model schema_two_classes None init_state
     = (Ok c', s') /\
     models c' ≫= dict_get "file_activity" =
       Some (MkModel (Some "file_activity") (Some "File activity") (Some "table") fields) /\
     dict_keys fields = ["actor"]) /\
  (exists c' s',
     import_ocsfschema 2 2 (mkContract None None) schema_null_name None init_state
     = (Ok c', s') /\
     models c' ≫= dict_get "events" = Some (MkModel None (Some "Events") None [])).
Proof.
  split.
  - destruct (import_ocsfschema 2 2 contract_with_model schema_two_classes None init_state)
      as [r s'] eqn:E.
    assert (Hr : exists c', r = Ok c') by (vm_compute in E; injection E as <- _; eauto).
    destruct Hr as [c' ->].
    destruct (imported_model_content 2 2 contract_with_model schema_two_classes
                [("file_activity", mkObjectSpec None Missing (Some "File <b>activity</b>") None
                              Missing (Value [("actor", ref_attr "_entity")]));
                 ("network_activity", mkObjectSpec None (Value "Network")
                              (Some "Network activity") None (Value "view")
                              (Value [("peer", plain_attr "the other end")]))]
                init_state c' s' "file_activity"
                (mkObjectSpec None Missing (Some "File <b>activity</b>") None Missing
                              (Value [("actor", ref_attr "_entity")])))
      as (attributes & fields & description & Ha & Hf & Hd & Hm);
      [apply consistent_init | reflexivity | apply (bool_decide_unpack _); by vm_compute
      | by left | exact E |].
    exists c', s', fields. split; [done|].
    injection Ha as <-. vm_compute in Hd. injection Hd as <-.
    split; [exact Hm|].
    vm_compute in Hf. injection Hf as <-. reflexivity.
  - destruct (import_ocsfschema 2 2 (mkContract None None) schema_null_name None init_state)
      as [r s'] eqn:E.
    assert (Hr : exists c', r = Ok c') by (vm_compute in E; injection E as <- _; eauto).
    destruct Hr as [c' ->].
    destruct (imported_model_content 2 2 (mkContract None None) schema_null_name
                [("events", mkObjectSpec None Null (Some "Events") None Null (Value []))]
                init_state c' s' "events"
                (mkObjectSpec None Null (Some "Events") None Null (Value [])))
      as (attributes & fields & description & Ha & Hf & Hd & Hm);
      [apply consistent_init | reflexivity | apply (bool_decide_unpack _); by vm_compute
      | by left | exact E |].
    exists c', s'. split; [done|].
    injection Ha as <-. vm_compute in Hd. injection Hd as <-.
    vm_compute in Hf. injection Hf as <-. exact Hm.
Defined.

(** X24: the import keeps the memo tables sound: if, before the import,
    each entry of the two tables is what building it from the document
    would give, the same holds afterwards, whether the import returns or
    raises. *)
Theorem import_keeps_tables_consistent ofuel fuel contract sch ocsf_classes s r s' :
  consistent sch s ->
  import_ocsfschema ofuel fuel contract sch ocsf_classes s = (r, s') ->
  consistent sch s'.
Proof.
  intros Hs H. unfold import_ocsfschema, bind, lift in H.
  destruct (classes_of sch (truthy_list ocsf_classes)) as [classes|e|]; [|by injection H as _ <-..].
  destruct (if truthy_list ocsf_classes
            then select_classes classes (map replace_hyphens (default [] ocsf_classes)) []
            else Ok classes) as [input_models|e|]; [|by injection H as _ <-..].
  destruct (import_models sch input_models (default [] (models contract)) s)
    as [r1 s1] eqn:E1.
  pose proof (import_models_consistent _ _ _ _ _ _ Hs E1) as Hs1.
  destruct r1 as [models1|e|]; [|by injection H as _ <-..].
  destruct (collect_definitions sch ofuel fuel models1 ∅ s1) as [r2 s2] eqn:E2.
  pose proof (collect_definitions_consistent _ _ _ _ _ _ _ _ Hs1 E2) as Hs2.
  destruct r2 as [defs|e|]; by injection H as _ <-.
Qed.

Lemma import_keeps_tables_consistent_witness :
  consistent schema_two_classes
    (import_ocsfschema 2 2 contract_with_model schema_two_classes None init_state).2.
Proof.
  destruct (import_ocsfschema 2 2 contract_with_model schema_two_classes None init_state)
    as [r s'] eqn:E.
  apply (import_keeps_tables_consistent 2 2 contract_with_model schema_two_classes None
           init_state r s'); [apply consistent_init | exact E].
Defined.

Lemma append_snoc cur c r : (cur +:+ String c EmptyString) +:+ r = cur +:+ String c r.
Proof.
  unfold String.app. induction cur as [|a cur IH]; simpl; [done|]. by rewrite IH.
Qed.

Lemma last_segment_from_plain t : forall cur,
  has_slash t = false -> last_segment_from cur t = cur +:+ t.
Proof.
  induction t as [|c r IH]; intros cur H; simpl.
  - unfold String.app. induction cur as [|a cur IHc]; simpl; [done|]. by rewrite <- IHc.
  - simpl in H. apply orb_false_elim in H as [-> Hr].
    rewrite (IH _ Hr). apply append_snoc.
Qed.

(** X25: the reference that the Field Translator writes for an object
    attribute is read back by the Definition Collector as the last
    segment of the object's name: the name itself when it holds no
    slash. *)
Theorem object_reference_round_trip sch name spec t s kw s' :
  name <> "$include" ->
  a_object_type spec = Some t -> t <> "" ->
  truthy_bool (a_is_array spec) = false ->
  _get_field_args sch name (AttrDict spec) s = (Ok kw, s') ->
  ref_target (MkField kw) = Some (last_segment t) /\
  (has_slash t = false -> last_segment t = t).
Proof.
  intros Hname Hobj Ht Harr H. split.
  2:{ intros Hs. unfold last_segment. by rewrite (last_segment_from_plain t "" Hs). }
  assert (Href : d_ref kw = Some ("#/definitions/" +:+ t)).
  { simpl in H. unfold bind, lift, raise, ret in H.
    destruct (clean_html (a_description spec)) as [description|e|]; try done.
    destruct (truthy_bool (a_deprecated spec)); [done|].
    rewrite (eqb_include _ Hname), Harr, Hobj in H.
    assert (truthy_str (Some t) = true) as Htr.
    { simpl. apply String.eqb_neq in Ht. by rewrite Ht. }
    rewrite Htr in H. injection H as <- _.
    destruct (truthy_str (a_group spec)), (truthy_int (a_observable spec)),
      (truthy_list (a_enum spec)),
      (bool_decide (a_requirement spec = Some REQUIRED)),
      (truthy_str (a_requirement spec)); reflexivity. }
  unfold ref_target, ref. simpl. rewrite Href.
  change (truthy_str (Some ("#/definitions/" +:+ t))) with true.
  by rewrite prefix_app.
Qed.

Lemma object_reference_round_trip_witness :
  exists kw s',
    _get_field_args schema_empty "actor" (AttrDict (spec_object "user")) init_state
    = (Ok kw, s') /\
    ref_target (MkField kw) = Some "user".
Proof.
  destruct (_get_field_args schema_empty "actor" (AttrDict (spec_object "user")) init_state)
    as [r s'] eqn:E.
  assert (Hr : exists kw, r = Ok kw) by (vm_compute in E; injection E as <- _; eauto).
  destruct Hr as [kw ->]. exists kw, s'. split; [done|].
  destruct (object_reference_round_trip schema_empty "actor" (spec_object "user") "user"
              init_state kw s') as [Hr _];
    [discriminate | reflexivity | discriminate | reflexivity | exact E |].
  exact Hr.
Defined.

(** X26: [get_definitions] never replaces a definition it is given: each
    known definition is in the result as it was, also when a field refers
    to its name and the document would resolve that name differently. *)
Theorem get_definitions_keeps_known sch ofuel fuel fields known s known' s' :
  get_definitions sch ofuel fuel fields (Some known) s = (Ok known', s') ->
  known ⊆ known'.
Proof. intros H. by apply get_definitions_gathers in H as [? _]. Qed.

Lemma get_definitions_keeps_known_witness :
  exists known' s',
    get_definitions schema_cycle 1 5 fields_cycle (Some {[ "a" := empty_obj ]}) init_state
    = (Ok known', s') /\
    known' !! "a" = Some empty_obj.
Proof.
  destruct (get_definitions schema_cycle 1 5 fields_cycle (Some {[ "a" := empty_obj ]})
              init_state) as [r s'] eqn:E.
  assert (Hr : exists known', r = Ok known') by (vm_compute in E; injection E as <- _; eauto).
  destruct Hr as [known' ->]. exists known', s'. split; [done|].
  eapply lookup_weaken;
    [|exact (get_definitions_keeps_known schema_cycle 1 5 fields_cycle
               {[ "a" := empty_obj ]} init_state known' s' E)].
  apply lookup_singleton_eq.
Defined.

(** ** Memoisation within one import *)

Lemma tables_grow_refl s : tables_grow s s.
Proof. by split. Qed.

Lemma tables_grow_trans s1 s2 s3 :
  tables_grow s1 s2 -> tables_grow s2 s3 -> tables_grow s1 s3.
Proof. intros [? ?] [? ?]. split; by etrans. Qed.

Lemma get_scalar_type_grows sch n s r s' :
  get_scalar_type sch n s = (r, s') -> tables_grow s s'.
Proof.
  unfold get_scalar_type.
  destruct (ocsf_types s !! n) eqn:E; [intros [= <- <-]; apply tables_grow_refl|].
  destruct (_build_scalar_type sch n); intros [= <- <-]; try apply tables_grow_refl.
  split; simpl; [by apply insert_subseteq | done].
Qed.

Lemma _get_field_args_grows sch name spec s r s' :
  _get_field_args sch name spec s = (r, s') -> tables_grow s s'.
Proof.
  destruct spec as [spec|paths]; simpl.
  2:{ intros [= <- <-]. apply tables_grow_refl. }
  unfold bind, lift, raise, ret.
  destruct (clean_html (a_description spec));
    try (intros [= <- <-]; apply tables_grow_refl).
  destruct (truthy_bool (a_deprecated spec)); [intros [= <- <-]; apply tables_grow_refl|].
  destruct (String.eqb name "$include"); [intros [= <- <-]; by split|].
  destruct (truthy_str (a_object_type spec)); [intros [= <- <-]; apply tables_grow_refl|].
  destruct (get_scalar_type sch (a_type spec) s) as [r1 s1] eqn:E1.
  apply get_scalar_type_grows in E1.
  destruct r1; by intros [= <- <-].
Qed.

Lemma get_fields_from_grows sch attributes : forall fields s r s',
  get_fields_from sch attributes fields s = (r, s') -> tables_grow s s'.
Proof.
  induction attributes as [|[name spec] rest IH]; intros fields s r s'; simpl.
  { intros [= <- <-]. apply tables_grow_refl. }
  destruct (_get_field_args sch name spec s) as [r1 s1] eqn:E1.
  apply _get_field_args_grows in E1.
  destruct r1 as [kw|e|].
  - intros H. eapply tables_grow_trans; [exact E1 | by eapply IH].
  - destruct e; try by intros [= <- <-].
    unfold bind, log_warning. intros H.
    eapply tables_grow_trans; [exact E1|]. apply IH in H. destruct H. by split.
  - by intros [= <- <-].
Qed.

Lemma get_object_grows sch : forall fuel bound n s r s',
  types_consistent sch s -> objects_below bound sch s ->
  get_object sch fuel n s = (r, s') -> tables_grow s s'.
Proof.
  induction fuel as [|fuel IH]; intros bound n s r s' Ht Ho H.
  { simpl in H. destruct (ocsf_objects s !! n); injection H as <- <-; apply tables_grow_refl. }
  destruct (get_object_sound _ _ _ _ _ _ _ Ht Ho H) as (_ & _ & Hval).
  simpl in H. destruct (ocsf_objects s !! n) as [d0|] eqn:E.
  { injection H as <- <-. apply tables_grow_refl. }
  unfold _build_object in H.
  destruct n as [n|]; simpl in H.
  2:{ injection H as <- <-. apply tables_grow_refl. }
  destruct (sch_objects sch !! n) as [spec|] eqn:Es.
  2:{ injection H as <- <-. apply tables_grow_refl. }
  unfold bind at 1 in H.
  destruct (get_object sch fuel (os_extends spec) s) as [r1 s1] eqn:E1.
  pose proof (IH _ _ _ _ _ Ht Ho E1) as G1.
  destruct (get_object_sound _ _ _ _ _ _ _ Ht Ho E1) as (Ht1 & Ho1 & _).
  destruct r1 as [base|e|]; [|by injection H as <- <-..].
  unfold bind, lift in H.
  destruct (clean_html (os_description spec)) as [description|e|];
    [|by injection H as <- <-..].
  destruct (attributes_of spec) as [attributes|e|]; [|by injection H as <- <-..].
  unfold get_fields in H.
  destruct (get_fields_from sch attributes [] s1) as [r2 s2] eqn:E2.
  pose proof (get_fields_from_grows _ _ _ _ _ _ E2) as G2.
  destruct (get_fields_from_spec sch attributes [] s1 Ht1) as (s2' & E2' & _ & Hobj).
  rewrite E2 in E2'. injection E2' as _ <-.
  pose proof (tables_grow_trans _ _ _ G1 G2) as G.
  destruct r2 as [fields|e|]; [|by injection H as <- <-..].
  unfold ret in H. injection H as <- <-.
  destruct G as [Gt Go]. split; simpl; [done|].
  set (d := chain_obj _ base) in *.
  destruct (ocsf_objects s2 !! Some n) as [d1|] eqn:E3.
  - assert (d1 = d) as ->.
    { destruct Ho1 as [_ Hn]. rewrite Hobj in E3. apply Hn in E3.
      apply (object_of_mono _ _ (bound + S fuel)) in E3; [|lia].
      specialize (Hval d eq_refl). congruence. }
    by rewrite insert_id.
  - etrans; [exact Go|]. by apply insert_subseteq.
Qed.

Lemma definitions_loop_grows sch ofuel
    (recurse : dict Field -> gmap string ObjDesc -> M (gmap string ObjDesc)) :
  (forall fields known s r s',
     consistent sch s -> recurse fields known s = (r, s') ->
     consistent sch s' /\ tables_grow s s') ->
  forall fields known s r s',
    consistent sch s -> definitions_loop sch ofuel recurse fields known s = (r, s') ->
    consistent sch s' /\ tables_grow s s'.
Proof.
  intros Hrec. induction fields as [|[k field] rest IH]; intros known s r s' Hs H; simpl in H.
  { injection H as _ <-. split; [done | apply tables_grow_refl]. }
  destruct (ref_target field) as [obj|]; [|by eapply IH].
  destruct (known !! obj) as [d0|]; [by eapply IH|].
  unfold bind at 1 in H.
  destruct (get_object sch ofuel (Some obj) s) as [r1 s1] eqn:E1.
  pose proof (get_object_consistent _ _ _ _ _ _ Hs E1) as Hs1.
  assert (G1 : tables_grow s s1).
  { destruct Hs as [Ht [bound Ho]]. by eapply get_object_grows. }
  destruct r1 as [defn|e|]; [|by injection H as _ <-..].
  unfold bind at 1, lift in H.
  destruct (o_fields defn) as [defn_fields|]; simpl in H; [|by injection H as _ <-].
  unfold bind in H.
  destruct (recurse defn_fields (<[obj := defn]> known) s1) as [r2 s2] eqn:E2.
  destruct (Hrec _ _ _ _ _ Hs1 E2) as [Hs2 G2].
  pose proof (tables_grow_trans _ _ _ G1 G2) as G.
  destruct r2 as [known2|e|]; [|by injection H as _ <-..].
  destruct (IH _ _ _ _ Hs2 H) as [Hs3 G3].
  split; [done | by eapply tables_grow_trans].
Qed.

Lemma get_definitions_grows sch ofuel : forall fuel fields known s r s',
  consistent sch s -> get_definitions sch ofuel fuel fields known s = (r, s') ->
  consistent sch s' /\ tables_grow s s'.
Proof.
  induction fuel as [|fuel IH]; intros fields known s r s' Hs H; simpl in H.
  { injection H as _ <-. split; [done | apply tables_grow_refl]. }
  apply (definitions_loop_grows sch ofuel
           (fun defn_fields known => get_definitions sch ofuel fuel defn_fields (Some known)))
    with (fields := fields) (known := default ∅ known) (s := s) (r := r); [|done|exact H].
  intros fields0 known0 s0 r0 s0' Hs0 H0. by apply (IH _ _ _ _ _ Hs0 H0).
Qed.

Lemma later_grows sch s s' :
  later sch s s' -> consistent sch s -> consistent sch s' /\ tables_grow s s'.
Proof.
  induction 1 as [s | s n r s1 s' E _ IH | s fuel n r s1 s' E _ IH
                 | s name spec r s1 s' E _ IH | s attributes r s1 s' E _ IH
                 | s ofuel fuel fields known r s1 s' E _ IH]; intros Hs.
  - split; [done | apply tables_grow_refl].
  - destruct Hs as [Ht Ho].
    destruct (get_scalar_type_spec sch n s Ht) as (s1' & E' & Ht1 & Hobj & _).
    rewrite E in E'. injection E' as _ <-.
    destruct IH as [Hs' G].
    { split; [done|]. destruct Ho as [bound [H0 Hn]]. exists bound. split; rewrite Hobj; done. }
    split; [done|]. eapply tables_grow_trans; [by eapply get_scalar_type_grows | done].
  - destruct IH as [Hs' G]; [by eapply get_object_consistent|].
    split; [done|]. eapply tables_grow_trans; [|exact G].
    destruct Hs as [Ht [bound Ho]]. by eapply get_object_grows.
  - destruct Hs as [Ht Ho].
    destruct (_get_field_args_spec sch name spec s Ht) as (s1' & E' & Ht1 & Hobj).
    rewrite E in E'. injection E' as _ <-.
    destruct IH as [Hs' G].
    { split; [done|]. destruct Ho as [bound [H0 Hn]]. exists bound. split; rewrite Hobj; done. }
    split; [done|]. eapply tables_grow_trans; [by eapply _get_field_args_grows | done].
  - destruct Hs as [Ht Ho]. unfold get_fields in E.
    destruct (get_fields_from_spec sch attributes [] s Ht) as (s1' & E' & Ht1 & Hobj).
    rewrite E in E'. injection E' as _ <-.
    destruct IH as [Hs' G].
    { split; [done|]. destruct Ho as [bound [H0 Hn]]. exists bound. split; rewrite Hobj; done. }
    split; [done|]. eapply tables_grow_trans; [by eapply get_fields_from_grows | done].
  - destruct (get_definitions_grows _ _ _ _ _ _ _ _ Hs E) as [Hs1 G1].
    destruct (IH Hs1) as [Hs' G].
    split; [done | by eapply tables_grow_trans].
Qed.

Lemma get_object_stores sch fuel n s d s' :
  get_object sch fuel n s = (Ok d, s') -> ocsf_objects s' !! n = Some d.
Proof.
  intros H. destruct fuel; simpl in H.
  - destruct (ocsf_objects s !! n) eqn:E; [|done]. by injection H as <- <-.
  - destruct (ocsf_objects s !! n) eqn:E; [by injection H as <- <-|].
    destruct (_build_object _ _ _ _) as [[d'|e|] s1]; try done.
    injection H as <- <-. simpl. apply lookup_insert_eq.
Qed.

Lemma get_scalar_type_stores sch n s d s' :
  get_scalar_type sch n s = (Ok d, s') -> ocsf_types s' !! n = Some d.
Proof.
  unfold get_scalar_type. intros H.
  destruct (ocsf_types s !! n) eqn:E; [by injection H as <- <-|].
  destruct (_build_scalar_type sch n); try done.
  injection H as <- <-. simpl. apply lookup_insert_eq.
Qed.

(** C7: at any point [s] of an import that started on a new importer, a
    descriptor that [get_object] returns for a name is stored in the table
    of objects under that name, and at every later point of the import,
    whatever was resolved in between, [get_object] returns this very
    descriptor for the name without resolving anything: the state is left
    as it is and no recursion budget is needed.  The same holds of
    [get_scalar_type] and the table of types.  The sentinel [None] resolves
    to the empty descriptor, and the empty descriptor is neutral for the
    merge of objects on both sides. *)
Theorem memoized_and_sentinel sch s :
  later sch init_state s ->
  (forall fuel n d s1,
     get_object sch fuel n s = (Ok d, s1) ->
     ocsf_objects s1 !! n = Some d /\
     forall s2, later sch s1 s2 ->
       ocsf_objects s2 !! n = Some d /\
       forall fuel', get_object sch fuel' n s2 = (Ok d, s2)) /\
  (forall n d s1,
     get_scalar_type sch n s = (Ok d, s1) ->
     ocsf_types s1 !! n = Some d /\
     forall s2, later sch s1 s2 ->
       ocsf_types s2 !! n = Some d /\ get_scalar_type sch n s2 = (Ok d, s2)) /\
  (forall fuel, get_object sch fuel None s = (Ok empty_obj, s)) /\
  get_scalar_type sch None s = (Ok empty_desc, s) /\
  (forall d, chain_obj d empty_obj = d /\ chain_obj empty_obj d = d).
Proof.
  intros Hlater.
  destruct (later_grows _ _ _ Hlater (consistent_init sch)) as [Hs _].
  split; [|split; [|split; [|split]]].
  - intros fuel n d s1 H.
    pose proof (get_object_stores _ _ _ _ _ _ H) as Hst. split; [done|].
    intros s2 Hl2.
    destruct (later_grows _ _ _ Hl2) as [_ [_ Go]]; [by eapply get_object_consistent|].
    assert (H2 : ocsf_objects s2 !! n = Some d) by (eapply lookup_weaken; eauto).
    split; [done|]. intros fuel'. destruct fuel'; simpl; by rewrite H2.
  - intros n d s1 H.
    pose proof (get_scalar_type_stores _ _ _ _ _ H) as Hst. split; [done|].
    intros s2 Hl2.
    assert (Hs1 : consistent sch s1).
    { destruct (later_grows sch s s1) as [? _]; [|done|done].
      eapply later_get_scalar_type; [exact H | apply later_now]. }
    destruct (later_grows _ _ _ Hl2 Hs1) as [_ [Gt _]].
    assert (H2 : ocsf_types s2 !! n = Some d) by (eapply lookup_weaken; eauto).
    split; [done|]. unfold get_scalar_type. by rewrite H2.
  - intros fuel. destruct Hs as [_ [bound [H0 _]]]. destruct fuel; simpl; by rewrite H0.
  - destruct Hs as [[H0 _] _]. unfold get_scalar_type. by rewrite H0.
  - intros d. split; [apply chain_obj_empty_r | apply chain_obj_empty_l].
Qed.

Lemma memoized_and_sentinel_witness :
  exists a s1 b s2 fields s3,
    get_object schema_cycle 1 (Some "a") init_state = (Ok a, s1) /\
    get_object schema_cycle 1 (Some "b") s1 = (Ok b, s2) /\
    get_fields schema_cycle [("x", plain_attr "y")] s2 = (Ok fields, s3) /\
    ocsf_objects s3 !! Some "a" = Some a /\
    ocsf_objects s3 !! Some "b" = Some b /\
    get_object schema_cycle 0 (Some "a") s3 = (Ok a, s3).
Proof.
  destruct (get_object schema_cycle 1 (Some "a") init_state) as [ra s1] eqn:E1.
  assert (H1 : exists a, ra = Ok a) by (vm_compute in E1; injection E1 as <- _; eauto).
  destruct H1 as [a ->].
  destruct (get_object schema_cycle 1 (Some "b") s1) as [rb s2] eqn:E2.
  assert (H2 : exists b, rb = Ok b).
  { vm_compute in E1. injection E1 as _ <-. vm_compute in E2. injection E2 as <- _. eauto. }
  destruct H2 as [b ->].
  destruct (get_fields schema_cycle [("x", plain_attr "y")] s2) as [rf s3] eqn:E3.
  assert (H3 : exists fields, rf = Ok fields).
  { vm_compute in E1. injection E1 as _ <-. vm_compute in E2. injection E2 as _ <-.
    vm_compute in E3. injection E3 as <- _. eauto. }
  destruct H3 as [fields ->].
  exists a, s1, b, s2, fields, s3. split; [done|]. split; [done|]. split; [done|].
  destruct (memoized_and_sentinel schema_cycle init_state (later_now _ _)) as (Hobj & _).
  destruct (Hobj 1%nat (Some "a") a s1 E1) as [_ Ha].
  destruct (Ha s3) as [Ha3 Hagain].
  { eapply later_get_object; [exact E2|].
    eapply later_get_fields; [exact E3 | apply later_now]. }
  split; [done|]. split; [|apply Hagain].
  destruct (memoized_and_sentinel schema_cycle s1) as (Hobj1 & _).
  { eapply later_get_object; [exact E1 | apply later_now]. }
  destruct (Hobj1 1%nat (Some "b") b s2 E2) as [_ Hb].
  apply (Hb s3). eapply later_get_fields; [exact E3 | apply later_now].
Defined.

(** ** What the Definition Collector reaches *)

Lemma points_to_ref_target field n :
  points_to field n -> has_slash n = false -> ref_target field = Some n.
Proof.
  unfold points_to, ref_target. intros -> Hn.
  change (truthy_str (Some ("#/definitions/" +:+ n))) with true.
  rewrite prefix_app. simpl andb. cbv iota.
  change (last_segment ("#/definitions/" +:+ n)) with (last_segment_from "" n).
  by rewrite (last_segment_from_plain n "" Hn).
Qed.



Lemma references_refers fields n :
  references fields n -> has_slash n = false -> refers fields n.
Proof.
  intros (k & field & Hin & Hp) Hn. exists k, field. split; [done|].
  by apply points_to_ref_target.
Qed.







(** X23: in the result of a successful import, each object name without
    a slash that a field of a model, or a field of a collected
    definition, points to through its own [$ref] has an entry in the
    definitions. *)
Theorem import_defines_own_references ofuel fuel contract sch ocsf_classes s c' s' :
  import_ocsfschema ofuel fuel contract sch ocsf_classes s = (Ok c', s') ->
  exists ms defs,
    models c' = Some ms /\ definitions c' = Some defs /\
    (forall name model n,
       In (name, model) ms -> references (m_fields model) n -> has_slash n = false ->
       is_Some (defs !! n)) /\
    (forall m d fields n,
       defs !! m = Some d -> o_fields d = Some fields ->
       references fields n -> has_slash n = false ->
       is_Some (defs !! n)).
Proof.
  intros H. unfold import_ocsfschema, bind, lift in H.
  destruct (classes_of sch (truthy_list ocsf_classes)) as [classes|e|]; try done.
  destruct (if truthy_list ocsf_classes
            then select_classes classes (map replace_hyphens (default [] ocsf_classes)) []
            else Ok classes) as [input_models|e|]; try done.
  destruct (import_models sch input_models (default [] (models contract)) s)
    as [[models1|e|] s1]; try done.
  destruct (collect_definitions sch ofuel fuel models1 ∅ s1) as [[defs|e|] s2] eqn:E2; try done.
  injection H as <- _. exists models1, defs. split; [done|]. split; [done|].
  apply collect_definitions_closed in E2 as (_ & Hc & Hroots).
  2:{ intros m d fs n Hm. by rewrite lookup_empty in Hm. }
  split.
  - intros name model n Hin Hr Hn. eapply Hroots; [exact Hin|]. by apply references_refers.
  - intros m d fields n Hm Hf Hr Hn. eapply Hc; [exact Hm | exact Hf |].
    by apply references_refers.
Qed.

Lemma import_defines_own_references_witness :
  exists c' s' ms defs,
    import_ocsfschema 2 2 contract_with_model schema_two_classes None init_state = (Ok c', s') /\
    models c' = Some ms /\ definitions c' = Some defs /\
    dict_keys ms = ["orders"; "file_activity"; "network_activity"] /\
    is_Some (defs !! "_entity").
Proof.
  destruct (import_ocsfschema 2 2 contract_with_model schema_two_classes None init_state)
    as [r s'] eqn:E.
  assert (Hr : exists c', r = Ok c' /\
                 (dict_keys <$> models c') = Some ["orders"; "file_activity"; "network_activity"] /\
                 ((models c' ≫= dict_get "file_activity") ≫=
                    (fun m => (dict_get "actor" (m_fields m)) ≫= ref))
                 = Some "#/definitions/_entity").
  { vm_compute in E. injection E as <- _. eexists. split; [reflexivity|]. by split. }
  destruct Hr as (c' & -> & Hkeys & Hactor).
  destruct (import_defines_own_references 2 2 contract_with_model schema_two_classes None
              init_state c' s' E) as (ms & defs & Hm & Hd & Hroots & _).
  exists c', s', ms, defs. split; [done|]. split; [done|]. split; [done|].
  rewrite Hm in Hkeys, Hactor. simpl in Hkeys, Hactor. injection Hkeys as Hkeys.
  split; [done|].
  destruct (dict_get "file_activity" ms) as [model|] eqn:Eg; [|done]. simpl in Hactor.
  destruct (dict_get "actor" (m_fields model)) as [field|] eqn:Ef; [|done]. simpl in Hactor.
  assert (Hin : forall {V} k (v : V) d, dict_get k d = Some v -> In (k, v) d).
  { intros V k v d. induction d as [|[k0 v0] d IH]; simpl; [done|].
    destruct (String.eqb k k0) eqn:Ek.
    - apply String.eqb_eq in Ek. intros [= ->]. left. congruence.
    - intros Hd0. right. by apply IH. }
  apply (Hroots "file_activity" model "_entity"); [by apply Hin| |reflexivity].
  exists "actor", field. split; [by apply Hin | exact Hactor].
Defined.
